(** * Module tree, provider configuration and execution-context factory

  A shallow embedding of three pieces of the framework:

  - [ServiceConfig]: [ProviderConfig] and [get_scope]
    (architek/di/service_config.py);
  - [TreeManager]: [TreeData] and [ModuleTreeManager]
    (ellar/di/injector/tree_manager.py);
  - [ContextFactory]: [ExecutionContextFactory.create_context]
    (ellar/core/context/factory.py).

  Python objects that are compared by identity (classes, module
  references) are represented by natural-number identities.  Exceptions
  are values of an inductive type, and a method that mutates [self] is a
  function from the state before the call to the state after it paired
  with either the raised exception or the returned value: what a method
  has written before it raises stays written. *)

From Stdlib Require Import List String Bool Arith Lia ZArith.
From Stdlib Require Import Permutation.
Import ListNotations.

Local Open Scope string_scope.
Local Open Scope list_scope.

(** ** Insertion-ordered dictionaries keyed by object identity

  A Python [dict] (and the [WeakKeyDictionary] built on it, as long as its
  keys stay alive) iterates in insertion order, and assigning to a key
  that is already present keeps the key's position. *)

Module Dict.
Section Dict.
Context {V : Type}.

Definition t := list (nat * V).

Definition empty : t := [].

(** [d.get(k)] *)
Fixpoint get (d : t) (k : nat) : option V :=
  match d with
  | [] => None
  | (k', v) :: rest => if Nat.eqb k' k then Some v else get rest k
  end.

(** [k in d] *)
Definition mem (d : t) (k : nat) : bool :=
  match get d k with Some _ => true | None => false end.

(** [d[k] = v] *)
Fixpoint set (d : t) (k : nat) (v : V) : t :=
  match d with
  | [] => [(k, v)]
  | (k', v') :: rest =>
      if Nat.eqb k' k then (k, v) :: rest else (k', v') :: set rest k v
  end.

(** [d.items()], [d.keys()] and [d.values()] *)
Definition items (d : t) : list (nat * V) := d.
Definition keys (d : t) : list nat := map fst d.
Definition values (d : t) : list V := map snd d.

End Dict.
Arguments t : clear implicits.
End Dict.

(** ** Provider configuration (architek/di/service_config.py) *)

Module ServiceConfig.

(** The scope classes of [architek.di.scopes]. *)
Inductive DIScope := SingletonScope | RequestScope | TransientScope.

(** A scope marker is a scope class or a [ScopeDecorator] wrapping one
    ([t.Union[t.Type[DIScope], ScopeDecorator]]).  Both are ordinary
    objects and therefore truthy. *)
Inductive ScopeMarker :=
| ScopeType (s : DIScope)
| ScopeDecorator (s : DIScope).

(** A class as [get_scope] sees it: its identity and the result of looking
    up the two attributes the function reads.  For each attribute the
    outer [option] says whether the attribute exists, the inner one is its
    value, where [None] is Python's [None]. *)
Record PyClass := {
  cls_id : nat;
  attr_INJECTABLE_ATTRIBUTE : option (option ScopeMarker);
  attr___scope__ : option (option ScopeMarker)
}.

(** Instances that can be bound with [use_value].  [VInstance cls truth] is
    an instance of a user class; [truth] is what its [__bool__] or [__len__]
    makes of it, [true] when the class defines neither. *)
Inductive Value :=
| VInt (z : Z)
| VStr (s : string)
| VBool (b : bool)
| VInstance (cls : nat) (truth : bool).

(** Python truth value of an instance. *)
Definition truthy (v : Value) : bool :=
  match v with
  | VInt z => negb (Z.eqb z 0)
  | VStr s => negb (String.eqb s "")
  | VBool b => b
  | VInstance _ truth => truth
  end.

(** Truth value of an optional argument: [None] is falsy. *)
Definition truthy_value (o : option Value) : bool :=
  match o with Some v => truthy v | None => false end.

(** Classes are truthy, [None] is not. *)
Definition truthy_class (o : option PyClass) : bool :=
  match o with Some _ => true | None => false end.

Inductive exn := ImproperConfiguration (msg : string).

Record ProviderConfig := {
  base_type : PyClass;
  use_value : option Value;
  use_class : option PyClass
}.

(** [ProviderConfig.__init__] *)
Definition __init__ (base_type : PyClass) (use_value : option Value)
    (use_class : option PyClass) : exn + ProviderConfig :=
  if truthy_value use_value && truthy_class use_class then
    inl (ImproperConfiguration
           "`use_class` and `use_value` can not be used at the same time.")
  else
    inr {| base_type := base_type; use_value := use_value; use_class := use_class |}.

(** [get_scope]: [getattr(c, INJECTABLE_ATTRIBUTE, getattr(c, "__scope__", None))] *)
Definition get_scope (func_or_class : PyClass) : option ScopeMarker :=
  match attr_INJECTABLE_ATTRIBUTE func_or_class with
  | Some v => v
  | None =>
      match attr___scope__ func_or_class with
      | Some v => v
      | None => None
      end
  end.

(** [get_scope(c) or SingletonScope] *)
Definition scope_or_singleton (o : option ScopeMarker) : ScopeMarker :=
  match o with Some m => m | None => ScopeType SingletonScope end.

(** Modelled from the spec: the Container ([architek/di/injector.py]) is
    not among the sources.  The spec describes it as a registry mapping an
    abstract type to a binding record, with
    [register(base_type, concrete_type=base_type, scope)] and
    [add_singleton(base_type, instance)], where re-registering overwrites
    (last write wins). *)
Inductive Binding :=
| ClassBinding (concrete_type : PyClass) (scope : ScopeMarker)
| SingletonInstance (instance : Value).

Definition Container := Dict.t Binding.

(** Modelled from the spec: [Container.register]; a missing
    [concrete_type] defaults to [base_type]. *)
Definition Container_register (c : Container) (base : PyClass)
    (concrete_type : option PyClass) (scope : ScopeMarker) : Container :=
  Dict.set c (cls_id base)
    (ClassBinding (match concrete_type with Some k => k | None => base end) scope).

(** Modelled from the spec: [Container.add_singleton] caches the instance
    as a singleton binding. *)
Definition Container_add_singleton (c : Container) (base : PyClass)
    (instance : Value) : Container :=
  Dict.set c (cls_id base) (SingletonInstance instance).

(** [ProviderConfig.register] *)
Definition register (self : ProviderConfig) (container : Container) : Container :=
  let scope := scope_or_singleton (get_scope (base_type self)) in
  match use_class self with
  | Some cls =>
      let scope := scope_or_singleton (get_scope cls) in
      Container_register container (base_type self) (Some cls) scope
  | None =>
      match use_value self with
      | Some v =>
          if truthy v then Container_add_singleton container (base_type self) v
          else Container_register container (base_type self) None scope
      | None => Container_register container (base_type self) None scope
      end
  end.

(** A class that carries no scope marker. *)
Definition unmarked_class (id : nat) : PyClass :=
  {| cls_id := id; attr_INJECTABLE_ATTRIBUTE := None; attr___scope__ := None |}.

(** A class decorated with [injectable(scope)]. *)
Definition injectable_class (id : nat) (scope : ScopeMarker) : PyClass :=
  {| cls_id := id; attr_INJECTABLE_ATTRIBUTE := Some (Some scope);
     attr___scope__ := None |}.

(** The effective scope of a class: its marker, else Singleton. *)
Definition effective_scope (c : PyClass) : ScopeMarker :=
  scope_or_singleton (get_scope c).

(** [setattr(func_or_class, INJECTABLE_ATTRIBUTE, scope)] *)
Definition set_INJECTABLE_ATTRIBUTE (func_or_class : PyClass) (scope : ScopeMarker)
    : PyClass :=
  {| cls_id := cls_id func_or_class;
     attr_INJECTABLE_ATTRIBUTE := Some (Some scope);
     attr___scope__ := attr___scope__ func_or_class |}.

(** [class _Injectable]: its one attribute, [scope]. *)
Record _Injectable := {
  injectable_scope : ScopeMarker
}.

(** [_Injectable.__init__]: [self.scope = scope or SingletonScope] *)
Definition _Injectable__init__ (scope : option ScopeMarker) : _Injectable :=
  {| injectable_scope := scope_or_singleton scope |}.

(** [_Injectable.__call__].  The first statement hands the class to
    [inject] of the injector library inside [fail_silently]; it swallows
    every exception and touches neither of the two attributes that
    [get_scope] reads. *)
Definition _Injectable__call__ (self : _Injectable) (func_or_class : PyClass)
    : PyClass :=
  set_INJECTABLE_ATTRIBUTE func_or_class (injectable_scope self).

(** What [injectable] is applied to.  [AScope scope] is one of the scope
    objects themselves: a [ScopeDecorator] instance or a scope class.
    [AClass c scope_class] is a class or function [c] as the object that
    would be decorated; [scope_class] is [Some s] when [c] is a type that
    subclasses [DIScope], namely the scope class [s], and [None] for every
    other class and for every function. *)
Inductive InjectableArgument :=
| AScope (scope : ScopeMarker)
| AClass (func_or_class : PyClass) (scope_class : option DIScope).

(** What [injectable] returns: a decorator still to be applied, or the
    decorated class. *)
Inductive InjectableResult :=
| Decorator (decorator : _Injectable)
| Decorated (func_or_class : PyClass).

(** [isinstance(scope, ScopeDecorator)] *)
Definition isinstance_ScopeDecorator (arg : InjectableArgument) : bool :=
  match arg with
  | AScope (ScopeDecorator _) => true
  | _ => false
  end.

(** [isinstance(scope, type) and issubclass(scope, DIScope)] *)
Definition is_DIScope_subclass (arg : InjectableArgument) : bool :=
  match arg with
  | AScope (ScopeType _) => true
  | AClass _ (Some _) => true
  | _ => false
  end.

(** The argument as the scope it is, when it is one. *)
Definition as_scope (arg : InjectableArgument) : option ScopeMarker :=
  match arg with
  | AScope scope => Some scope
  | AClass _ (Some s) => Some (ScopeType s)
  | AClass _ None => None
  end.

(** [injectable]; [None] is the call without argument, whose parameter
    takes its default [SingletonScope].  An argument that is a
    [ScopeDecorator] or a subclass of [DIScope] is taken as the scope and
    gives [_Injectable(scope)]; every other argument is taken as the class
    to decorate and gives [_Injectable()(scope)]. *)
Definition injectable (scope : option InjectableArgument) : InjectableResult :=
  match scope with
  | None => Decorator (_Injectable__init__ (Some (ScopeType SingletonScope)))
  | Some arg =>
      if isinstance_ScopeDecorator arg || is_DIScope_subclass arg
      then Decorator (_Injectable__init__ (as_scope arg))
      else
        match arg with
        | AClass c _ => Decorated (_Injectable__call__ (_Injectable__init__ None) c)
        | AScope s => Decorator (_Injectable__init__ (Some s))
        end
  end.

(** [injectable(...)(cls)], and [injectable(cls)] for the bare use: the
    class once the decoration is complete. *)
Definition decorated_class (result : InjectableResult) (cls : PyClass) : PyClass :=
  match result with
  | Decorator d => _Injectable__call__ d cls
  | Decorated c => c
  end.

(** [is_decorated_with_injectable]: [hasattr(func_or_class, INJECTABLE_ATTRIBUTE)] *)
Definition is_decorated_with_injectable (func_or_class : PyClass) : bool :=
  match attr_INJECTABLE_ATTRIBUTE func_or_class with
  | Some _ => true
  | None => false
  end.

End ServiceConfig.

(** ** The module tree (ellar/di/injector/tree_manager.py) *)

Module TreeManager.

(** Identity of a module class (the keys of [ModuleTreeManager.modules]). *)
Definition ModuleType := nat.

(** Identity of a [ModuleRefBase] / [ModuleSetup] object on the heap. *)
Definition ObjRef := nat.

(** What [add_provider] can be given: a type or a [ProviderConfig]. *)
Inductive Provider :=
| ProviderType (t : nat)
| ProviderCfg (config : ServiceConfig.ProviderConfig).

(** The attributes of a [ModuleRefBase] / [ModuleSetup] object that the tree
    manager reads.  The classes themselves are declared in
    [ellar.core.modules], which is not among the sources. *)
Record ModuleRef := {
  module : ModuleType;
  name : string;
  ref_type : string;
  is_ready : bool;
  providers : list Provider;
  exports : list Provider
}.

(** The heap of module references.  Several tree nodes may hold the same
    reference; a write through one of them is seen through all. *)
Definition Heap := ObjRef -> ModuleRef.

Definition heap_update (h : Heap) (r : ObjRef) (v : ModuleRef) : Heap :=
  fun r' => if Nat.eqb r' r then v else h r'.

(** Modelled from the spec: [ModuleRefBase.add_provider] is not among the
    sources.  The spec says that it writes the provider into the module's
    live provider set; an exported provider is listed among the exports as
    well. *)
Definition ModuleRef_add_provider (m : ModuleRef) (provider_type : Provider)
    (export : bool) : ModuleRef :=
  {| module := module m;
     name := name m;
     ref_type := ref_type m;
     is_ready := is_ready m;
     providers := providers m ++ [provider_type];
     exports := if export then exports m ++ [provider_type] else exports m |}.

(** [class TreeData(NamedTuple)]: a three-field tuple, hence always truthy.
    [dependencies] is the list object the node owns; [update_module] hands
    the same list over to the node that replaces it. *)
Record TreeData := {
  value : ObjRef;
  parent : option ModuleType;
  dependencies : list ModuleType
}.

(** The properties of [TreeData] read through to the value it holds. *)
Definition TreeData_is_ready (h : Heap) (data : TreeData) : bool :=
  is_ready (h (value data)).

Definition TreeData_ref_type (h : Heap) (data : TreeData) : string :=
  ref_type (h (value data)).

Definition TreeData_exports (h : Heap) (data : TreeData) : list Provider :=
  exports (h (value data)).

Definition TreeData_providers (h : Heap) (data : TreeData) : list Provider :=
  providers (h (value data)).

Definition TreeData_name (h : Heap) (data : TreeData) : string :=
  name (h (value data)).

(** The f-string messages, by the text around the interpolated module. *)
Inductive Message :=
| AlreadyExists (module_type : ModuleType)
  (* "Module {module_type} already exists. Use 'update_module'" *)
| DoesNotExist (module_type : ModuleType)
  (* "Module {module_type} does not exists. Use 'add_module'" *)
| ParentDataDoesNotExist (parent_module : ModuleType)
  (* "Parent data for Module {parent_module} does not exist." *)
| DependencyParentDoesNotExist (parent_module : ModuleType)
  (* "Trying to add module dependency, Module {parent_module} does not exists." *)
| CoreCanOnlyHave (root_module : option ModuleType).
  (* "EllarCoreModule can only have '{self._root_module}' as dependency" *)

Inductive exn :=
| ValueError (msg : Message)
| Exception_ (msg : Message)
| AssertionError (msg : string)
| AttributeError (attribute : string)
| RecursionError
| OtherError (description : string).

(** [except ValueError] *)
Definition is_ValueError (e : exn) : bool :=
  match e with ValueError _ => true | _ => false end.

(** [ModuleTreeManager.__slots__], together with the heap the stored
    references point into. *)
Record ModuleTreeManager := {
  modules : Dict.t TreeData;
  _core_module : option ModuleType;
  _root_module : option ModuleType;
  heap : Heap
}.

(** A method body: the state after it, and what it raised or returned. *)
Definition M (A : Type) : Type := ModuleTreeManager -> ModuleTreeManager * (exn + A).

Definition ret {A} (a : A) : M A := fun self => (self, inr a).

Definition raise {A} (e : exn) : M A := fun self => (self, inl e).

Definition bind {A B} (c : M A) (k : A -> M B) : M B :=
  fun self =>
    match c self with
    | (self', inr a) => k a self'
    | (self', inl e) => (self', inl e)
    end.

Definition get_self : M ModuleTreeManager := fun self => (self, inr self).

Definition set_modules (d : Dict.t TreeData) : M unit :=
  fun self =>
    ({| modules := d; _core_module := _core_module self;
        _root_module := _root_module self; heap := heap self |}, inr tt).

Definition set_root_module (r : option ModuleType) : M unit :=
  fun self =>
    ({| modules := modules self; _core_module := _core_module self;
        _root_module := r; heap := heap self |}, inr tt).

Definition set_heap (h : Heap) : M unit :=
  fun self =>
    ({| modules := modules self; _core_module := _core_module self;
        _root_module := _root_module self; heap := h |}, inr tt).

(** [try: body  except ValueError: handler] *)
Definition try_except_ValueError {A} (body handler : M A) : M A :=
  fun self =>
    match body self with
    | (self', inl e) => if is_ValueError e then handler self' else (self', inl e)
    | r => r
    end.

Notation "x <- c ;; k" := (bind c (fun x => k))
  (at level 61, c at next level, right associativity).
Notation "c ;;; k" := (bind c (fun _ => k))
  (at level 61, right associativity).

(** Truth value of an optional class: a class is truthy, [None] is not. *)
Definition truthy (o : option ModuleType) : bool :=
  match o with Some _ => true | None => false end.

(** [a == b] on optional classes. *)
Definition eqb_opt (a b : option ModuleType) : bool :=
  match a, b with
  | Some x, Some y => Nat.eqb x y
  | None, None => true
  | _, _ => false
  end.

(** [get_module]: [self.modules.get(module_type)] *)
Definition get_module (self : ModuleTreeManager) (module_type : ModuleType)
    : option TreeData :=
  Dict.get (modules self) module_type.

(** [self.modules[parent_module].dependencies.append(module_type)] *)
Definition append_dependency (d : TreeData) (module_type : ModuleType) : TreeData :=
  {| value := value d; parent := parent d;
     dependencies := dependencies d ++ [module_type] |}.

(** [add_module] *)
Definition add_module (module_type : ModuleType) (v : ObjRef)
    (parent_module : option ModuleType) : M unit :=
  self <- get_self ;;
  if Dict.mem (modules self) module_type then
    raise (ValueError (AlreadyExists module_type))
  else
    let data := {| value := v; parent := parent_module; dependencies := [] |} in
    set_modules (Dict.set (modules self) module_type data) ;;;
    match parent_module with
    | Some p =>
        self <- get_self ;;
        match Dict.get (modules self) p with
        | None => raise (ValueError (ParentDataDoesNotExist p))
        | Some pdata =>
            set_modules (Dict.set (modules self) p (append_dependency pdata module_type)) ;;;
            if eqb_opt parent_module (_core_module self) && negb (truthy (_root_module self))
            then set_root_module (Some (module (heap self (value data))))
            else ret tt
        end
    | None =>
        (* the two [elif] arms, reached when [parent_module] is falsy *)
        self <- get_self ;;
        if negb (truthy parent_module) && negb (truthy (_root_module self))
           && negb (truthy (_core_module self))
        then set_root_module (Some module_type)
        else if truthy (_root_module self) && truthy parent_module
                && truthy (_core_module self)
                && eqb_opt parent_module (_core_module self)
        then raise (Exception_ (CoreCanOnlyHave (_root_module self)))
        else ret tt
    end.

(** [ModuleTreeManager.__init__]; [h] is the heap the manager is created
    in.  The call of [add_module] is the constructor's last statement, so an
    exception of it is the constructor's. *)
Definition __init__ (h : Heap) (app_core_module : option ObjRef)
    : ModuleTreeManager * (exn + unit) :=
  let self :=
    {| modules := Dict.empty;
       _core_module := option_map (fun r => module (h r)) app_core_module;
       _root_module := None;
       heap := h |} in
  match app_core_module with
  | Some r => add_module (module (h r)) r None self
  | None => (self, inr tt)
  end.

(** The property [root_module] *)
Definition root_module : M ModuleType :=
  self <- get_self ;;
  match _root_module self with
  | Some r => ret r
  | None => raise (AssertionError "RootModule is not ready")
  end.

(** [add_provider] *)
Definition add_provider (module_type : ModuleType) (provider_type : Provider)
    (export : bool) : M unit :=
  self <- get_self ;;
  match get_module self module_type with
  | None => raise (ValueError (DoesNotExist module_type))
  | Some data =>
      if TreeData_is_ready (heap self) data then
        set_heap (heap_update (heap self) (value data)
                    (ModuleRef_add_provider (heap self (value data)) provider_type export))
      else ret tt
  end.

(** [add_module_dependency] *)
Definition add_module_dependency (parent_module dependency : ModuleType) : M unit :=
  self <- get_self ;;
  match get_module self parent_module with
  | None => raise (ValueError (DependencyParentDoesNotExist parent_module))
  | Some data =>
      set_modules (Dict.set (modules self) parent_module (append_dependency data dependency))
  end.

(** [parent_module or data.parent] *)
Definition or_parent (a b : option ModuleType) : option ModuleType :=
  match a with Some _ => a | None => b end.

(** [update_module] *)
Definition update_module (module_type : ModuleType) (v : ObjRef)
    (parent_module : option ModuleType) : M unit :=
  self <- get_self ;;
  match get_module self module_type with
  | None => raise (ValueError (DoesNotExist module_type))
  | Some data =>
      let new_module_data :=
        {| value := v;
           parent := or_parent parent_module (parent data);
           dependencies := dependencies data |} in
      set_modules (Dict.set (modules self) module_type new_module_data)
  end.

(** [add_or_update] *)
Definition add_or_update (module_type : ModuleType) (v : ObjRef)
    (parent_module : option ModuleType) : M unit :=
  try_except_ValueError
    (add_module module_type v parent_module)
    (update_module module_type v parent_module).

(** [get_by_ref_type] *)
Definition get_by_ref_type (self : ModuleTreeManager) (ref_type : string)
    : list TreeData :=
  filter (fun v => String.eqb (TreeData_ref_type (heap self) v) ref_type)
    (Dict.values (modules self)).

(** [self.get_module(item) for item in data.dependencies], keeping the
    results that are not [None]: the children of a node are its
    dependencies that are stored, in the order in which they were
    appended. *)
Fixpoint children_of (self : ModuleTreeManager) (ids : list ModuleType)
    : list TreeData :=
  match ids with
  | [] => []
  | id :: rest =>
      match get_module self id with
      | Some child => child :: children_of self rest
      | None => children_of self rest
      end
  end.

(** [get_module_dependencies] *)
Definition get_module_dependencies (self : ModuleTreeManager) (parent_id : ModuleType)
    (predicate : option (TreeData -> bool)) : list TreeData :=
  match get_module self parent_id with
  | None => []
  | Some data =>
      match predicate with
      | Some p => filter p (children_of self (dependencies data))
      | None => children_of self (dependencies data)
      end
  end.

(** [get_root_module] *)
Definition get_root_module : M ObjRef :=
  root <- root_module ;;
  self <- get_self ;;
  match get_module self root with
  | Some data => ret (value data)
  | None => raise (AssertionError "")
  end.

(** A callable annotated [Callable[[TreeData], bool]]: on a node it returns
    a truth value.  [on_None] is what the same callable does when it is
    handed [None], which the annotation does not cover: it raises or
    returns a truth value. *)
Record Predicate := {
  holds : TreeData -> bool;
  on_None : exn + bool
}.

Definition apply (p : Predicate) (arg : option TreeData) : exn + bool :=
  match arg with
  | Some data => inr (holds p data)
  | None => on_None p
  end.

(** The loop of [find_module] over [self.modules.items()], with its
    [found_any] flag; the result lists what the generator yields. *)
Fixpoint find_module_loop (predicate : Predicate) (items : list (nat * TreeData))
    (found_any : bool) : list (option TreeData) :=
  match items with
  | [] => if negb found_any then [None] else []
  | (_key, data) :: rest =>
      if holds predicate data
      then Some data :: find_module_loop predicate rest true
      else find_module_loop predicate rest found_any
  end.

(** [find_module] *)
Definition find_module (self : ModuleTreeManager) (predicate : Predicate)
    : list (option TreeData) :=
  find_module_loop predicate (Dict.items (modules self)) false.

(** What a search did: the arguments [find_predicate] was called with, in
    call order, and what the search raised or returned. *)
Definition Visit : Type := list (option TreeData) * (exn + option TreeData).

(** [for child_id in current_node.dependencies: ...] inside [dfs]: a child
    that is not stored is skipped, the first truthy result is returned. *)
Fixpoint dfs_children (self : ModuleTreeManager) (dfs : option TreeData -> Visit)
    (ids : list ModuleType) : Visit :=
  match ids with
  | [] => ([], inr None)
  | child_id :: rest =>
      match get_module self child_id with
      | Some child_node =>
          match dfs (Some child_node) with
          | (seen, inr None) =>
              let (seen', res) := dfs_children self dfs rest in (seen ++ seen', res)
          | (seen, res) => (seen, res)
          end
      | None => dfs_children self dfs rest
      end
  end.

(** The nested function [dfs].  [limit] is the room that the interpreter's
    recursion limit leaves, measured in calls of [dfs] nested one inside
    the other: a call of [dfs] made when no further one fits raises
    [RecursionError].  It is not a number of frames: the frames that
    [find_predicate], [get_module] and the generator take on top of a call
    of [dfs] are not counted.  Reading [current_node.dependencies] raises
    [AttributeError] when [current_node] is [None]. *)
Fixpoint dfs (self : ModuleTreeManager) (find_predicate : Predicate) (limit : nat)
    (current_node : option TreeData) : Visit :=
  match limit with
  | 0 => ([], inl RecursionError)
  | S limit' =>
      match apply find_predicate current_node with
      | inl e => ([current_node], inl e)
      | inr true => ([current_node], inr current_node)
      | inr false =>
          match current_node with
          | None => ([current_node], inl (AttributeError "dependencies"))
          | Some node =>
              let (seen, res) :=
                dfs_children self (dfs self find_predicate limit') (dependencies node) in
              (current_node :: seen, res)
          end
      end
  end.

(** [for module in self.find_module(filter_item): ...]: the first truthy
    result is returned, [None] when the generator is exhausted.  The
    generator only reads the tree and [filter_item] returns on every node,
    so running it ahead of the loop changes nothing. *)
Fixpoint search_roots (dfs : option TreeData -> Visit)
    (found : list (option TreeData)) : Visit :=
  match found with
  | [] => ([], inr None)
  | module :: rest =>
      match dfs module with
      | (seen, inr None) =>
          let (seen', res) := search_roots dfs rest in (seen ++ seen', res)
      | (seen, res) => (seen, res)
      end
  end.

(** [search_module_tree] *)
Definition search_module_tree (self : ModuleTreeManager) (limit : nat)
    (filter_item find_predicate : Predicate) : Visit :=
  search_roots (dfs self find_predicate limit) (find_module self filter_item).

(** *** The traversal order in the words of the specification *)

(** The stored nodes that satisfy a predicate, in insertion order. *)
Definition matching (self : ModuleTreeManager) (predicate : Predicate)
    : list TreeData :=
  filter (holds predicate) (Dict.values (modules self)).

(** [Preorder self n node order]: the subtree below [node] has at most [n]
    levels, and [order] lists it parent first, then the children's subtrees
    one after the other in insertion order. *)
Inductive Preorder (self : ModuleTreeManager)
    : nat -> TreeData -> list TreeData -> Prop :=
| Preorder_node n node below :
    PreorderForest self n (children_of self (dependencies node)) below ->
    Preorder self (S n) node (node :: below)
with PreorderForest (self : ModuleTreeManager)
    : nat -> list TreeData -> list TreeData -> Prop :=
| Forest_nil n : PreorderForest self n [] []
| Forest_cons n node rest first others :
    Preorder self n node first ->
    PreorderForest self n rest others ->
    PreorderForest self n (node :: rest) (first ++ others).

Scheme Preorder_mut := Minimality for Preorder Sort Prop
  with PreorderForest_mut := Minimality for PreorderForest Sort Prop.

Combined Scheme Preorder_mutind from Preorder_mut, PreorderForest_mut.

(** The prefix of a list up to and including the first element that
    satisfies [p]; the whole list when none does. *)
Fixpoint take_until {A} (p : A -> bool) (l : list A) : list A :=
  match l with
  | [] => []
  | x :: rest => if p x then [x] else x :: take_until p rest
  end.

(** *** Definitions used to state the properties *)

(** The node that [add_module] stores before it looks at the parent. *)
Definition new_node (v : ObjRef) (parent_module : option ModuleType) : TreeData :=
  {| value := v; parent := parent_module; dependencies := [] |}.

(** A heap in which every reference [r] is a module reference for the
    module class [r] that is not ready yet. *)
Definition sample_heap : Heap :=
  fun r =>
    {| module := r; name := ""; ref_type := "module"; is_ready := false;
       providers := []; exports := [] |}.

(** [ModuleTreeManager(app_core_module)] with core module class 0. *)
Definition manager_with_core : ModuleTreeManager :=
  fst (__init__ sample_heap (Some 0)).

(** [ModuleTreeManager()] *)
Definition manager_without_core : ModuleTreeManager :=
  fst (__init__ sample_heap None).

(** What [dfs] does when it is handed [None]. *)
Definition visit_None (find_predicate : Predicate) : Visit :=
  ([None],
   match on_None find_predicate with
   | inl e => inl e
   | inr true => inr None
   | inr false => inl (AttributeError "dependencies")
   end).

(** A predicate that reads an attribute of its argument, as most do, and so
    raises [AttributeError] when it is handed [None]. *)
Definition node_predicate (p : TreeData -> bool) (attribute : string) : Predicate :=
  {| holds := p; on_None := inl (AttributeError attribute) |}.

(** What a search that follows [order] does: it calls [find_predicate] on
    the nodes of [order] up to the first one that satisfies it, and returns
    that node, or [None] when there is none. *)
Definition follows (find_predicate : Predicate) (order : list TreeData) : Visit :=
  (map Some (take_until (holds find_predicate) order),
   inr (find (holds find_predicate) order)).

(** A tree without cycles: every stored child ranks below its parent. *)
Definition well_ranked (self : ModuleTreeManager) (rank : ModuleType -> nat) : Prop :=
  forall k node, get_module self k = Some node ->
  forall id child, In id (dependencies node) -> get_module self id = Some child ->
    rank id < rank k.

(** Every dependency of an entry is the key of a later entry. *)
Fixpoint forward (d : Dict.t TreeData) : Prop :=
  match d with
  | [] => True
  | (_, node) :: rest =>
      (forall id, In id (dependencies node) -> In id (Dict.keys rest)) /\ forward rest
  end.

(** The number of entries from the entry of [k] to the end; 0 when [k] is
    not a key. *)
Fixpoint rank_in (d : Dict.t TreeData) (k : ModuleType) : nat :=
  match d with
  | [] => 0
  | (k', _) :: rest => if Nat.eqb k' k then S (List.length rest) else rank_in rest k
  end.

(** No key is stored twice and every edge leads to a later entry. *)
Definition acyclic (self : ModuleTreeManager) : Prop :=
  NoDup (Dict.keys (modules self)) /\ forward (modules self).

(** The managers that the constructor and the methods [add_module],
    [update_module], [add_or_update] and [add_provider] produce, whether the
    calls return or raise, as long as no module is given itself as parent. *)
Inductive built : ModuleTreeManager -> Prop :=
| built_init h app_core_module : built (fst (__init__ h app_core_module))
| built_add_module self m v p :
    built self -> p <> Some m -> built (fst (add_module m v p self))
| built_update_module self m v p :
    built self -> built (fst (update_module m v p self))
| built_add_or_update self m v p :
    built self -> p <> Some m -> built (fst (add_or_update m v p self))
| built_add_provider self m provider export :
    built self -> built (fst (add_provider m provider export self)).

(** A heap in which every module reference is ready. *)
Definition ready_heap : Heap :=
  fun r =>
    {| module := r; name := ""; ref_type := "module"; is_ready := true;
       providers := []; exports := [] |}.

(** The tree [root -> {A, B}], [A -> {C}], built by four calls of
    [add_module] on a fresh manager; the module classes are 0 (root), 1 (A),
    2 (B) and 3 (C). *)
Definition example_tree : ModuleTreeManager :=
  fst (add_module 3 3 (Some 1)
    (fst (add_module 2 2 (Some 0)
      (fst (add_module 1 1 (Some 0)
        (fst (add_module 0 0 None manager_without_core))))))).

Definition node_root : TreeData :=
  {| value := 0; parent := None; dependencies := [1; 2] |}.
Definition node_A : TreeData :=
  {| value := 1; parent := Some 0; dependencies := [3] |}.
Definition node_B : TreeData :=
  {| value := 2; parent := Some 0; dependencies := [] |}.
Definition node_C : TreeData :=
  {| value := 3; parent := Some 1; dependencies := [] |}.

(** [lambda data: data.parent is None] *)
Definition has_no_parent : Predicate :=
  node_predicate (fun d => match parent d with None => true | Some _ => false end) "parent".

(** [lambda data: data.value.module is C] *)
Definition is_module_C : Predicate :=
  node_predicate (fun d => Nat.eqb (module (sample_heap (value d))) 3) "value".

(** *** Definitions used to state further properties *)

(** One call of a method that writes to the manager, whether it returns or
    raises. *)
Inductive step : ModuleTreeManager -> ModuleTreeManager -> Prop :=
| step_add_module self m v p : step self (fst (add_module m v p self))
| step_update_module self m v p : step self (fst (update_module m v p self))
| step_add_or_update self m v p : step self (fst (add_or_update m v p self))
| step_add_provider self m provider export :
    step self (fst (add_provider m provider export self))
| step_add_module_dependency self p d :
    step self (fst (add_module_dependency p d self)).

(** Any number of such calls, one after the other. *)
Inductive reaches (self : ModuleTreeManager) : ModuleTreeManager -> Prop :=
| reaches_refl : reaches self self
| reaches_step mid after : reaches self mid -> step mid after -> reaches self after.

(** The dependency lists of all entries, one after the other. *)
Definition all_dependencies (d : Dict.t TreeData) : list ModuleType :=
  flat_map (fun entry => dependencies (snd entry)) d.

(** What a search that did not raise has done, when it is sound: the calls
    of [find_predicate] were on stored nodes; all of them were answered
    with false, except the last one when a node is returned, which is the
    call on that node. *)
Definition sound_visit (self : ModuleTreeManager) (find_predicate : Predicate)
    (visit : Visit) : Prop :=
  match snd visit with
  | inl _ => True
  | inr found =>
      exists rejected,
        Forall (fun node => In node (Dict.values (modules self))
                            /\ holds find_predicate node = false) rejected
        /\ match found with
           | Some node =>
               fst visit = map Some rejected ++ [Some node]
               /\ In node (Dict.values (modules self))
               /\ holds find_predicate node = true
           | None => fst visit = map Some rejected
           end
  end.

(** The manager after a module was added to a fresh manager as its own
    parent. *)
Definition self_loop_tree : ModuleTreeManager :=
  fst (add_module 7 7 (Some 7) manager_without_core).

(** A heap in which the module reference 1 names the module class 42. *)
Definition renamed_heap : Heap :=
  heap_update sample_heap 1
    {| module := 42; name := ""; ref_type := "module"; is_ready := false;
       providers := []; exports := [] |}.

(** [lambda data: data.ref_type == ref_type] *)
Definition ref_type_is (h : Heap) (ref_type : string) : Predicate :=
  {| holds := fun data => String.eqb (TreeData_ref_type h data) ref_type;
     on_None := inl (AttributeError "ref_type") |}.

End TreeManager.

(** ** The execution-context factory (ellar/core/context/factory.py) *)

Module ContextFactory.
Section Factory.

(** The ASGI scope, the two channels, an endpoint, the reflector service and
    a published resolution boundary are opaque here. *)
Context {TScope TReceive TSend Endpoint Reflector Boundary : Type}.

(** The default values of [receive] and [send]. *)
Variable empty_receive : TReceive.
Variable empty_send : TSend.

Inductive exn := ServiceUnavailable.

(** The one attribute of a [RouteOperationBase] that the factory reads. *)
Record RouteOperationBase := {
  endpoint : Endpoint
}.

(** Modelled from the spec: [ExecutionContext] is declared in
    [ellar/core/context/execution.py], which is not among the sources.  It
    is built from the keyword arguments that [create_context] passes to it
    and keeps them. *)
Record ExecutionContext := {
  scope : TScope;
  receive : TReceive;
  send : TSend;
  operation_handler : Endpoint;
  context_reflector : Reflector
}.

(** [ExecutionContextFactory.__slots__] *)
Record ExecutionContextFactory := {
  reflector : Reflector
}.

(** Modelled from the spec: [SCOPED_CONTEXT_VAR] is declared in
    [ellar/constants.py], which is not among the sources.  It is the slot of
    the current concurrency unit; reading it gives the boundary that was
    published there, or [None] when none was.  A boundary is an ordinary
    object and so truthy. *)
Definition ContextVar := option Boundary.

Definition ContextVar_get (var : ContextVar) : option Boundary := var.

(** A keyword argument with a default value. *)
Definition or_default {A} (arg : option A) (default : A) : A :=
  match arg with Some a => a | None => default end.

(** [ExecutionContextFactory.create_context] *)
Definition create_context (SCOPED_CONTEXT_VAR : ContextVar)
    (self : ExecutionContextFactory) (operation : RouteOperationBase)
    (scope : TScope) (receive : option TReceive) (send : option TSend)
    : exn + ExecutionContext :=
  let scoped_request_args := ContextVar_get SCOPED_CONTEXT_VAR in
  match scoped_request_args with
  | None => inl ServiceUnavailable
  | Some _ =>
      let i_execution_context :=
        {| scope := scope;
           receive := or_default receive empty_receive;
           send := or_default send empty_send;
           operation_handler := endpoint operation;
           context_reflector := reflector self |} in
      inr i_execution_context
  end.

End Factory.
End ContextFactory.

(** * Properties *)

(** ** Dictionaries *)

Module DictFacts.
Import Dict.
Section DictFacts.
Context {V : Type}.
Implicit Types d : Dict.t V.

Lemma get_set_eq d k v : get (set d k v) k = Some v.
Proof.
  induction d as [|[k' v'] rest IH]; simpl.
  - now rewrite Nat.eqb_refl.
  - destruct (Nat.eqb k' k) eqn:E; simpl.
    + now rewrite Nat.eqb_refl.
    + now rewrite E.
Qed.

Lemma get_set_ne d k k2 v : k <> k2 -> get (set d k v) k2 = get d k2.
Proof.
  intros Hne. induction d as [|[k' v'] rest IH]; simpl.
  - destruct (Nat.eqb k k2) eqn:E; [apply Nat.eqb_eq in E; contradiction | reflexivity].
  - destruct (Nat.eqb k' k) eqn:E; simpl.
    + apply Nat.eqb_eq in E; subst k'.
      destruct (Nat.eqb k k2) eqn:E2; [apply Nat.eqb_eq in E2; contradiction | reflexivity].
    + destruct (Nat.eqb k' k2); [reflexivity | exact IH].
Qed.

Lemma mem_set_eq d k v : mem (set d k v) k = true.
Proof. unfold mem. now rewrite get_set_eq. Qed.

Lemma mem_set_ne d k k2 v : k <> k2 -> mem (set d k v) k2 = mem d k2.
Proof. intros H. unfold mem. now rewrite get_set_ne. Qed.

Lemma mem_false_get d k : mem d k = false -> get d k = None.
Proof. unfold mem. now destruct (get d k). Qed.

Lemma mem_true_get d k : mem d k = true -> exists v, get d k = Some v.
Proof. unfold mem. destruct (get d k) as [v|]; [eauto | discriminate]. Qed.

(** Assigning to an absent key appends a new entry at the end. *)
Lemma set_absent d k v : get d k = None -> set d k v = d ++ [(k, v)].
Proof.
  induction d as [|[k' v'] rest IH]; simpl; [reflexivity|].
  destruct (Nat.eqb k' k); [discriminate|].
  intros H. now rewrite IH.
Qed.

(** Assigning to a present key keeps the iteration order of the keys. *)
Lemma keys_set_present d k v : mem d k = true -> keys (set d k v) = keys d.
Proof.
  unfold mem, keys. induction d as [|[k' v'] rest IH]; simpl; [discriminate|].
  destruct (Nat.eqb k' k) eqn:E; simpl.
  - apply Nat.eqb_eq in E. now subst.
  - intros H. now rewrite IH.
Qed.

Lemma get_In d k v : get d k = Some v -> In v (values d).
Proof.
  unfold values. induction d as [|[k' v'] rest IH]; simpl; [discriminate|].
  destruct (Nat.eqb k' k).
  - intros [= ->]. now left.
  - intros H. right. auto.
Qed.

Lemma get_In_keys d k v : get d k = Some v -> In k (keys d).
Proof.
  unfold keys. induction d as [|[k' v'] rest IH]; simpl; [discriminate|].
  destruct (Nat.eqb k' k) eqn:E.
  - apply Nat.eqb_eq in E. now left.
  - intros H. right. auto.
Qed.

Lemma not_In_keys_get d k : ~ In k (keys d) -> get d k = None.
Proof.
  intros H. destruct (get d k) as [v|] eqn:E; [|reflexivity].
  exfalso. apply H. exact (get_In_keys _ _ _ E).
Qed.

Lemma get_None_not_In_keys d k : get d k = None -> ~ In k (keys d).
Proof.
  unfold keys. induction d as [|[k' v'] rest IH]; simpl; [tauto|].
  destruct (Nat.eqb k' k) eqn:E; [discriminate|].
  apply Nat.eqb_neq in E. intros H [Hk|Hk]; [contradiction | now apply IH].
Qed.

(** The keys after an assignment: unchanged for a present key, one more at
    the end for an absent one. *)
Lemma keys_set d k v :
  keys (set d k v) = if mem d k then keys d else keys d ++ [k].
Proof.
  destruct (mem d k) eqn:E.
  - now apply keys_set_present.
  - rewrite set_absent by now apply mem_false_get.
    unfold keys. now rewrite map_app.
Qed.

Lemma In_keys_set d k v id : In id (keys d) -> In id (keys (set d k v)).
Proof.
  rewrite keys_set. destruct (mem d k); [auto|].
  intros H. apply in_or_app. now left.
Qed.

(** Assignments never duplicate a key. *)
Lemma NoDup_keys_set d k v : NoDup (keys d) -> NoDup (keys (set d k v)).
Proof.
  intros H. rewrite keys_set. destruct (mem d k) eqn:E; [exact H|].
  apply mem_false_get, get_None_not_In_keys in E.
  apply NoDup_app; [exact H | repeat constructor; intros [] |].
  intros x Hx [<-|[]]. contradiction.
Qed.

Lemma NoDup_In_get d k v : NoDup (keys d) -> In (k, v) d -> get d k = Some v.
Proof.
  unfold keys. induction d as [|[k' v'] rest IH]; simpl; [intros _ []|].
  intros Hnd [[= -> ->]|Hin].
  - now rewrite Nat.eqb_refl.
  - inversion Hnd as [|? ? Hnotin Hrest]; subst.
    destruct (Nat.eqb k' k) eqn:E; [|auto].
    apply Nat.eqb_eq in E. subst k'. exfalso. apply Hnotin.
    change k with (fst (k, v)). now apply in_map.
Qed.

(** Without duplicate keys every value is the value of some key. *)
Lemma In_values_get d v : NoDup (keys d) -> In v (values d) -> exists k, get d k = Some v.
Proof.
  intros Hnd Hin. unfold values in Hin. apply in_map_iff in Hin.
  destruct Hin as ([k v'] & Hv & Hin). simpl in Hv. subst v'.
  exists k. now apply NoDup_In_get.
Qed.

(** Assigning to a key the value it has changes nothing. *)
Lemma set_same d k v : get d k = Some v -> set d k v = d.
Proof.
  induction d as [|[k' v'] rest IH]; simpl; [discriminate|].
  destruct (Nat.eqb k' k) eqn:E.
  - apply Nat.eqb_eq in E. intros [= ->]. now subst.
  - intros H. now rewrite IH.
Qed.

Lemma In_keys_get d k : In k (keys d) -> exists v, get d k = Some v.
Proof.
  intros H. destruct (get d k) as [v|] eqn:E; [eauto|].
  exfalso. exact (get_None_not_In_keys _ _ E H).
Qed.

Lemma mem_get_Some d k v : get d k = Some v -> mem d k = true.
Proof. unfold mem. now intros ->. Qed.

End DictFacts.
End DictFacts.

(** ** Provider configuration *)

Module ServiceConfigFacts.
Import ServiceConfig.

(** *** [ProviderConfig.__init__] *)

(** The constructor raises exactly when both arguments are truthy. *)
Lemma init_raises_iff base v c :
  (exists msg, __init__ base v c = inl (ImproperConfiguration msg))
  <-> truthy_value v = true /\ truthy_class c = true.
Proof.
  unfold __init__. split.
  - intros [msg H]. destruct (truthy_value v), (truthy_class c); simpl in H;
      try discriminate; auto.
  - intros [-> ->]. simpl. eauto.
Qed.

(** Two truthy arguments are refused. *)
Lemma init_both_truthy_fails base v cls :
  truthy v = true ->
  exists msg, __init__ base (Some v) (Some cls) = inl (ImproperConfiguration msg).
Proof. intros H. apply init_raises_iff. simpl. auto. Qed.

(** With at most one of the two arguments supplied the constructor succeeds
    and stores what it was given. *)
Lemma init_at_most_one_succeeds base v c :
  v = None \/ c = None ->
  __init__ base v c = inr {| base_type := base; use_value := v; use_class := c |}.
Proof.
  unfold __init__. intros [-> | ->]; simpl; [reflexivity|].
  now rewrite andb_false_r.
Qed.

(** C2 (the code departs from the claim).  A value that is not [None] but
    falsy (0, the empty string, [False], an empty container) given together
    with a class is accepted: the constructor tests the truth value of
    [use_value], not whether it was supplied, and stores both fields. *)
Theorem init_accepts_falsy_value_with_class base v cls :
  truthy v = false ->
  __init__ base (Some v) (Some cls)
  = inr {| base_type := base; use_value := Some v; use_class := Some cls |}.
Proof. intros H. unfold __init__. simpl. now rewrite H. Qed.

Lemma init_accepts_falsy_value_with_class_witness :
  truthy (VInt 0) = false
  /\ __init__ (unmarked_class 1) (Some (VInt 0)) (Some (unmarked_class 2))
     = inr {| base_type := unmarked_class 1; use_value := Some (VInt 0);
              use_class := Some (unmarked_class 2) |}.
Proof.
  split; [reflexivity|].
  apply (init_accepts_falsy_value_with_class (unmarked_class 1) (VInt 0) (unmarked_class 2)).
  reflexivity.
Defined.

(** *** [get_scope] and [ProviderConfig.register] *)

(** The marker set by [injectable] takes precedence over [__scope__]. *)
Lemma get_scope_injectable c v :
  attr_INJECTABLE_ATTRIBUTE c = Some v -> get_scope c = v.
Proof. unfold get_scope. now intros ->. Qed.

Lemma get_scope_dunder c v :
  attr_INJECTABLE_ATTRIBUTE c = None -> attr___scope__ c = Some v -> get_scope c = v.
Proof. unfold get_scope. now intros -> ->. Qed.

Lemma get_scope_undeclared c :
  attr_INJECTABLE_ATTRIBUTE c = None -> attr___scope__ c = None -> get_scope c = None.
Proof. unfold get_scope. now intros -> ->. Qed.

Lemma effective_scope_default c :
  get_scope c = None -> effective_scope c = ScopeType SingletonScope.
Proof. unfold effective_scope. now intros ->. Qed.

(** With [use_class], [base_type -> use_class] is registered under the
    scope of [use_class], whatever [use_value] holds. *)
Lemma register_use_class base v cls container :
  register {| base_type := base; use_value := v; use_class := Some cls |} container
  = Container_register container base (Some cls) (effective_scope cls).
Proof. reflexivity. Qed.

(** With a truthy [use_value] and no class, the value is added as a
    singleton. *)
Lemma register_use_value base v container :
  truthy v = true ->
  register {| base_type := base; use_value := Some v; use_class := None |} container
  = Container_add_singleton container base v.
Proof. intros H. unfold register. simpl. now rewrite H. Qed.

(** With neither, the self-binding is registered under the scope of
    [base_type]. *)
Lemma register_self_binding base container :
  register {| base_type := base; use_value := None; use_class := None |} container
  = Container_register container base None (effective_scope base).
Proof. reflexivity. Qed.

(** What each of the three writes leaves under [base_type]. *)
Lemma register_binding_after self container :
  Dict.get (register self container) (cls_id (base_type self))
  = Some
      match use_class self with
      | Some cls => ClassBinding cls (effective_scope cls)
      | None =>
          if truthy_value (use_value self)
          then match use_value self with
               | Some v => SingletonInstance v
               | None => ClassBinding (base_type self) (effective_scope (base_type self))
               end
          else ClassBinding (base_type self) (effective_scope (base_type self))
      end.
Proof.
  unfold register, Container_register, Container_add_singleton, effective_scope.
  destruct (use_class self) as [cls|]; [apply DictFacts.get_set_eq|].
  destruct (use_value self) as [v|]; simpl; [|apply DictFacts.get_set_eq].
  destruct (truthy v); apply DictFacts.get_set_eq.
Qed.

(** C5 (the code departs from the claim).  A supplied value that is falsy is
    not added as a singleton: [register] tests the truth value of
    [use_value], so the binding it writes is the self-binding
    [base_type -> base_type], a class to be constructed, and the supplied
    value is dropped. *)
Theorem register_drops_falsy_value base v container :
  truthy v = false ->
  register {| base_type := base; use_value := Some v; use_class := None |} container
  = Container_register container base None (effective_scope base)
  /\ Dict.get
       (register {| base_type := base; use_value := Some v; use_class := None |} container)
       (cls_id base)
     = Some (ClassBinding base (effective_scope base)).
Proof.
  intros H. unfold register. simpl. rewrite H. split; [reflexivity|].
  apply DictFacts.get_set_eq.
Qed.

Lemma register_drops_falsy_value_witness :
  truthy (VInt 0) = false
  /\ Dict.get
       (register {| base_type := unmarked_class 1; use_value := Some (VInt 0);
                    use_class := None |} Dict.empty)
       1
     = Some (ClassBinding (unmarked_class 1) (ScopeType SingletonScope)).
Proof.
  split; [reflexivity|].
  exact (proj2 (register_drops_falsy_value (unmarked_class 1) (VInt 0) Dict.empty eq_refl)).
Defined.

(** *** [injectable] *)

(** A scope object always takes the first branch of [injectable]. *)
Lemma injectable_of_scope (scope : ScopeMarker) :
  injectable (Some (AScope scope)) = Decorator {| injectable_scope := scope |}.
Proof. now destruct scope. Qed.

(** X1.  Decorating a class with [injectable(scope)] makes [get_scope]
    return that scope, and [injectable()] makes it return [SingletonScope],
    whatever markers the class carried before; so does the bare
    [injectable(cls)] for a class that is not a subclass of [DIScope] and
    for a function.  The class then counts as decorated, and its identity
    and [__scope__] attribute are untouched.  A class that subclasses
    [DIScope] is not decorated by the bare use: it is taken as a scope, and
    the result is the decorator that [injectable] returns for that scope. *)
Theorem injectable_then_get_scope (scope : ScopeMarker) (cls : PyClass)
    (s : DIScope) :
  get_scope (decorated_class (injectable (Some (AScope scope))) cls) = Some scope
  /\ get_scope (decorated_class (injectable None) cls) = Some (ScopeType SingletonScope)
  /\ injectable (Some (AClass cls None))
     = Decorated (set_INJECTABLE_ATTRIBUTE cls (ScopeType SingletonScope))
  /\ get_scope (set_INJECTABLE_ATTRIBUTE cls (ScopeType SingletonScope))
     = Some (ScopeType SingletonScope)
  /\ is_decorated_with_injectable
       (decorated_class (injectable (Some (AScope scope))) cls) = true
  /\ is_decorated_with_injectable
       (set_INJECTABLE_ATTRIBUTE cls (ScopeType SingletonScope)) = true
  /\ cls_id (decorated_class (injectable (Some (AScope scope))) cls) = cls_id cls
  /\ attr___scope__ (decorated_class (injectable (Some (AScope scope))) cls)
     = attr___scope__ cls
  /\ injectable (Some (AClass cls (Some s)))
     = Decorator {| injectable_scope := ScopeType s |}
  /\ injectable (Some (AClass cls (Some s))) = injectable (Some (AScope (ScopeType s))).
Proof. rewrite injectable_of_scope. repeat split. Qed.

(** Decorating is an overwrite of one attribute. *)
Lemma decorate_twice d1 d2 cls :
  _Injectable__call__ d2 (_Injectable__call__ d1 cls) = _Injectable__call__ d2 cls.
Proof. reflexivity. Qed.

(** X2.  The last decoration wins: a class decorated with one scope and
    then passed through [injectable()(cls)] ends up with [SingletonScope],
    and in general a second decoration leaves no trace of the first. *)
Theorem injectable_last_wins (first second : ScopeMarker) (cls : PyClass) :
  decorated_class (injectable (Some (AScope second)))
    (decorated_class (injectable (Some (AScope first))) cls)
  = decorated_class (injectable (Some (AScope second))) cls
  /\ effective_scope
       (decorated_class (injectable None)
          (decorated_class (injectable (Some (AScope first))) cls))
     = ScopeType SingletonScope.
Proof. rewrite !injectable_of_scope. split; reflexivity. Qed.


End ServiceConfigFacts.

(** ** The module tree *)

Module TreeManagerFacts.
Import TreeManager.

(** *** [add_module] *)

Lemma eqb_opt_refl a : eqb_opt a a = true.
Proof. destruct a; simpl; [apply Nat.eqb_refl | reflexivity]. Qed.

Lemma eqb_opt_eq a b : eqb_opt a b = true <-> a = b.
Proof.
  destruct a, b; simpl; split; try discriminate; try reflexivity.
  - intros H. apply Nat.eqb_eq in H. now subst.
  - intros [= ->]. apply Nat.eqb_refl.
Qed.

(** A module that is already stored is refused, and nothing is written. *)
Lemma add_module_duplicate self m v p :
  Dict.mem (modules self) m = true ->
  add_module m v p self = (self, inl (ValueError (AlreadyExists m))).
Proof. intros H. unfold add_module, bind, get_self, raise. now rewrite H. Qed.

(** A parent that is missing once the new node is stored is refused; the
    new node stays stored. *)
Lemma add_module_parent_missing self m v p :
  Dict.mem (modules self) m = false ->
  Dict.get (Dict.set (modules self) m (new_node v (Some p))) p = None ->
  add_module m v (Some p) self
  = ({| modules := Dict.set (modules self) m (new_node v (Some p));
        _core_module := _core_module self;
        _root_module := _root_module self;
        heap := heap self |},
     inl (ValueError (ParentDataDoesNotExist p))).
Proof.
  intros Hm Hp. unfold add_module, bind, get_self, raise, set_modules.
  rewrite Hm. simpl. unfold new_node in Hp. now rewrite Hp.
Qed.

(** A parent that is found gets the new module appended to its dependency
    list; the root is adopted when the parent is the core module and no root
    is set. *)
Lemma add_module_parent_found self m v p pdata :
  Dict.mem (modules self) m = false ->
  Dict.get (Dict.set (modules self) m (new_node v (Some p))) p = Some pdata ->
  add_module m v (Some p) self
  = ({| modules :=
          Dict.set (Dict.set (modules self) m (new_node v (Some p))) p
            (append_dependency pdata m);
        _core_module := _core_module self;
        _root_module :=
          if eqb_opt (Some p) (_core_module self) && negb (truthy (_root_module self))
          then Some (module (heap self v))
          else _root_module self;
        heap := heap self |},
     inr tt).
Proof.
  intros Hm Hp. unfold add_module, bind, get_self, raise, set_modules, set_root_module, ret.
  rewrite Hm. simpl. unfold new_node in Hp. rewrite Hp. simpl.
  destruct (match _core_module self with Some y => Nat.eqb p y | None => false end
            && negb (truthy (_root_module self))); reflexivity.
Qed.

(** Without a parent the module is stored, and becomes the root when
    neither a root nor a core module is set. *)
Lemma add_module_no_parent self m v :
  Dict.mem (modules self) m = false ->
  add_module m v None self
  = ({| modules := Dict.set (modules self) m (new_node v None);
        _core_module := _core_module self;
        _root_module :=
          if negb (truthy (_root_module self)) && negb (truthy (_core_module self))
          then Some m else _root_module self;
        heap := heap self |},
     inr tt).
Proof.
  intros Hm. unfold add_module, bind, get_self, raise, set_modules, set_root_module, ret.
  rewrite Hm. simpl.
  destruct (_root_module self), (_core_module self); reflexivity.
Qed.

(** The only exceptions of [add_module] are the two [ValueError]s: the arm
    that raises the plain [Exception] is guarded by [parent_module] being
    truthy inside the [elif] chain of [if parent_module:], and is never
    entered. *)
Lemma add_module_raises_only_ValueError self m v p e :
  snd (add_module m v p self) = inl e ->
  e = ValueError (AlreadyExists m)
  \/ exists q, p = Some q /\ e = ValueError (ParentDataDoesNotExist q).
Proof.
  destruct (Dict.mem (modules self) m) eqn:Hm.
  - rewrite add_module_duplicate by assumption. simpl. intros [= <-]. now left.
  - destruct p as [q|].
    + destruct (Dict.get (Dict.set (modules self) m (new_node v (Some q))) q) as [pd|] eqn:Hq.
      * rewrite (add_module_parent_found _ _ _ _ _ Hm Hq). discriminate.
      * rewrite (add_module_parent_missing _ _ _ _ Hm Hq). simpl.
        intros [= <-]. right. eauto.
    + rewrite add_module_no_parent by assumption. discriminate.
Qed.

(** Adding a child whose parent is absent, and is not the child itself, is
    refused. *)
Lemma add_module_absent_parent self m v p :
  Dict.mem (modules self) m = false ->
  Dict.mem (modules self) p = false ->
  p <> m ->
  snd (add_module m v (Some p) self) = inl (ValueError (ParentDataDoesNotExist p)).
Proof.
  intros Hm Hp Hne.
  rewrite add_module_parent_missing; [reflexivity | assumption |].
  rewrite DictFacts.get_set_ne by congruence. now apply DictFacts.mem_false_get.
Qed.

(** A successful [add_module] with a parent other than the module itself
    appends the module to the dependency list the parent had. *)
Lemma add_module_appends_to_parent self m v p :
  p <> m ->
  snd (add_module m v (Some p) self) = inr tt ->
  exists pdata,
    get_module self p = Some pdata
    /\ get_module (fst (add_module m v (Some p) self)) p
       = Some (append_dependency pdata m).
Proof.
  intros Hne Hok.
  destruct (Dict.mem (modules self) m) eqn:Hm.
  - rewrite add_module_duplicate in Hok by assumption. discriminate.
  - destruct (Dict.get (Dict.set (modules self) m (new_node v (Some p))) p) as [pd|] eqn:Hq.
    + rewrite (add_module_parent_found _ _ _ _ _ Hm Hq). simpl.
      exists pd. split.
      * unfold get_module. now rewrite DictFacts.get_set_ne in Hq by congruence.
      * unfold get_module. simpl. apply DictFacts.get_set_eq.
    + rewrite (add_module_parent_missing _ _ _ _ Hm Hq) in Hok. discriminate.
Qed.

(** C1 (the code departs from the claim).  With a core module and a root
    already set, adding a further module under the core module returns
    normally: the module is stored, it is appended to the core module's
    dependency list next to the root, and the root stays what it was.  The
    [raise Exception] meant for this case sits in an [elif] arm of
    [if parent_module:] and asks for [parent_module] to be truthy, so it is
    never reached. *)
Theorem add_module_second_root_accepted self (m : ModuleType) (v : ObjRef)
    (c r : ModuleType) :
  _core_module self = Some c ->
  _root_module self = Some r ->
  Dict.mem (modules self) c = true ->
  Dict.mem (modules self) m = false ->
  snd (add_module m v (Some c) self) = inr tt
  /\ _root_module (fst (add_module m v (Some c) self)) = Some r
  /\ get_module (fst (add_module m v (Some c) self)) m = Some (new_node v (Some c))
  /\ exists cdata,
       get_module self c = Some cdata
       /\ get_module (fst (add_module m v (Some c) self)) c
          = Some (append_dependency cdata m).
Proof.
  intros Hcore Hroot Hc Hm.
  assert (Hne : m <> c) by (intros ->; congruence).
  destruct (DictFacts.mem_true_get _ _ Hc) as [cdata Hget].
  assert (Hq : Dict.get (Dict.set (modules self) m (new_node v (Some c))) c = Some cdata)
    by now rewrite DictFacts.get_set_ne.
  rewrite (add_module_parent_found _ _ _ _ _ Hm Hq). simpl.
  rewrite Hcore, Hroot. simpl. rewrite Nat.eqb_refl. simpl.
  repeat split.
  - unfold get_module. simpl.
    rewrite DictFacts.get_set_ne by congruence. apply DictFacts.get_set_eq.
  - exists cdata. split; [exact Hget|].
    unfold get_module. simpl. apply DictFacts.get_set_eq.
Qed.

(** The manager is created with core module 0, module 1 is attached under
    the core module and becomes the root, and module 2 is then attached
    under the core module as well. *)
Lemma add_module_second_root_accepted_witness :
  let self := fst (add_module 1 1 (Some 0) manager_with_core) in
  _core_module self = Some 0
  /\ _root_module self = Some 1
  /\ snd (add_module 2 2 (Some 0) self) = inr tt
  /\ _root_module (fst (add_module 2 2 (Some 0) self)) = Some 1
  /\ get_module (fst (add_module 2 2 (Some 0) self)) 0
     = Some {| value := 0; parent := None; dependencies := [1; 2] |}.
Proof.
  set (self := fst (add_module 1 1 (Some 0) manager_with_core)).
  assert (Hcore : _core_module self = Some 0) by reflexivity.
  assert (Hroot : _root_module self = Some 1) by reflexivity.
  assert (Hc : Dict.mem (modules self) 0 = true) by reflexivity.
  assert (Hm : Dict.mem (modules self) 2 = false) by reflexivity.
  destruct (add_module_second_root_accepted self 2 2 0 1 Hcore Hroot Hc Hm)
    as (Hok & Hr & _ & _).
  split; [exact Hcore|]. split; [exact Hroot|]. split; [exact Hok|].
  split; [exact Hr | reflexivity].
Defined.

(** C3 (the code departs from the claim).  A module named as its own parent
    is accepted although that parent is not in the tree when the call is
    made: the new node is stored before the parent is looked up, so the
    lookup finds the node itself, and the module ends up in its own
    dependency list. *)
Theorem add_module_self_parent_accepted self (m : ModuleType) (v : ObjRef) :
  Dict.mem (modules self) m = false ->
  snd (add_module m v (Some m) self) = inr tt
  /\ get_module (fst (add_module m v (Some m) self)) m
     = Some {| value := v; parent := Some m; dependencies := [m] |}.
Proof.
  intros Hm.
  assert (Hq : Dict.get (Dict.set (modules self) m (new_node v (Some m))) m
               = Some (new_node v (Some m))) by apply DictFacts.get_set_eq.
  rewrite (add_module_parent_found _ _ _ _ _ Hm Hq). simpl. split; [reflexivity|].
  unfold get_module. simpl. apply DictFacts.get_set_eq.
Qed.

Lemma add_module_self_parent_accepted_witness :
  Dict.mem (modules manager_without_core) 7 = false
  /\ snd (add_module 7 7 (Some 7) manager_without_core) = inr tt
  /\ get_module (fst (add_module 7 7 (Some 7) manager_without_core)) 7
     = Some {| value := 7; parent := Some 7; dependencies := [7] |}.
Proof.
  split; [reflexivity|].
  exact (add_module_self_parent_accepted manager_without_core 7 7 eq_refl).
Defined.

(** *** [update_module] and [add_or_update] *)

Lemma update_module_present self m v p data :
  get_module self m = Some data ->
  update_module m v p self
  = ({| modules :=
          Dict.set (modules self) m
            {| value := v; parent := or_parent p (parent data);
               dependencies := dependencies data |};
        _core_module := _core_module self;
        _root_module := _root_module self;
        heap := heap self |},
     inr tt).
Proof.
  intros H. unfold update_module, bind, get_self, set_modules. now rewrite H.
Qed.

Lemma update_module_absent self m v p :
  get_module self m = None ->
  update_module m v p self = (self, inl (ValueError (DoesNotExist m))).
Proof.
  intros H. unfold update_module, bind, get_self, raise. now rewrite H.
Qed.

(** It is not so that [add_module] raises whenever neither the module nor
    the parent is stored: with the module as its own parent it returns. *)
Lemma add_module_absent_self_parent_returns :
  ~ (forall self m v p,
        Dict.mem (modules self) m = false ->
        Dict.mem (modules self) p = false ->
        exists e, snd (add_module m v (Some p) self) = inl e).
Proof.
  intros H.
  destruct (H manager_without_core 7 7 7 eq_refl eq_refl) as [e He].
  discriminate He.
Qed.

(** With a parent other than the module itself: when neither the module
    nor its parent is stored, [add_module] raises [ValueError] but
    leaves the new node in the tree, with the parent it was given and no
    dependencies.  [update_module] on it then succeeds, and [add_or_update]
    returns normally, its [update_module] rewriting the node that the failed
    [add_module] stored. *)
Theorem add_module_failure_leaves_node self (m : ModuleType) (v : ObjRef)
    (p : ModuleType) :
  Dict.mem (modules self) m = false ->
  Dict.mem (modules self) p = false ->
  p <> m ->
  snd (add_module m v (Some p) self) = inl (ValueError (ParentDataDoesNotExist p))
  /\ get_module (fst (add_module m v (Some p) self)) m = Some (new_node v (Some p))
  /\ (forall v' p',
        snd (update_module m v' p' (fst (add_module m v (Some p) self))) = inr tt)
  /\ add_or_update m v (Some p) self
     = update_module m v (Some p) (fst (add_module m v (Some p) self))
  /\ snd (add_or_update m v (Some p) self) = inr tt
  /\ get_module (fst (add_or_update m v (Some p) self)) m = Some (new_node v (Some p)).
Proof.
  intros Hm Hp Hne.
  assert (Hq : Dict.get (Dict.set (modules self) m (new_node v (Some p))) p = None).
  { rewrite DictFacts.get_set_ne by congruence. now apply DictFacts.mem_false_get. }
  unfold add_or_update, try_except_ValueError.
  rewrite (add_module_parent_missing _ _ _ _ Hm Hq). cbn [fst snd is_ValueError].
  set (failed := {| modules := Dict.set (modules self) m (new_node v (Some p));
                    _core_module := _core_module self;
                    _root_module := _root_module self;
                    heap := heap self |}).
  assert (Hstored : get_module failed m = Some (new_node v (Some p))).
  { unfold get_module, failed. simpl. apply DictFacts.get_set_eq. }
  split; [reflexivity|]. split; [exact Hstored|]. split.
  - intros v' p'. now rewrite (update_module_present _ _ _ _ _ Hstored).
  - split; [reflexivity|].
    rewrite (update_module_present _ _ _ _ _ Hstored). simpl. split; [reflexivity|].
    unfold get_module. simpl. apply DictFacts.get_set_eq.
Qed.

Lemma add_module_failure_leaves_node_witness :
  Dict.mem (modules manager_without_core) 3 = false
  /\ Dict.mem (modules manager_without_core) 9 = false
  /\ snd (add_module 3 3 (Some 9) manager_without_core)
     = inl (ValueError (ParentDataDoesNotExist 9))
  /\ get_module (fst (add_module 3 3 (Some 9) manager_without_core)) 3
     = Some (new_node 3 (Some 9))
  /\ snd (add_or_update 3 3 (Some 9) manager_without_core) = inr tt.
Proof.
  assert (Hne : 9 <> 3) by discriminate.
  destruct (add_module_failure_leaves_node manager_without_core 3 3 9 eq_refl eq_refl Hne)
    as (H1 & H2 & _ & _ & H5 & _).
  repeat split; assumption.
Defined.

(** C9 (the code departs from the claim).  When the parent that is not
    stored is the module itself, [add_module] does not raise: the node is
    stored before the parent is looked up, so the lookup succeeds.  There
    is then no failed add for [add_or_update] to recover from, it is the
    [add_module] call alone and never reaches [update_module], and the
    node it leaves lists the module in its own dependency list instead of
    having none. *)
Theorem add_module_self_parent_skips_update self (m : ModuleType) (v : ObjRef) :
  Dict.mem (modules self) m = false ->
  snd (add_module m v (Some m) self) = inr tt
  /\ add_or_update m v (Some m) self = add_module m v (Some m) self
  /\ get_module (fst (add_or_update m v (Some m) self)) m
     = Some {| value := v; parent := Some m; dependencies := [m] |}.
Proof.
  intros Hm.
  assert (Hq : Dict.get (Dict.set (modules self) m (new_node v (Some m))) m
               = Some (new_node v (Some m))) by apply DictFacts.get_set_eq.
  unfold add_or_update, try_except_ValueError.
  rewrite (add_module_parent_found _ _ _ _ _ Hm Hq). cbn [fst snd].
  split; [reflexivity|]. split; [reflexivity|].
  unfold get_module. cbn [modules]. apply DictFacts.get_set_eq.
Qed.

Lemma add_module_self_parent_skips_update_witness :
  Dict.mem (modules manager_without_core) 7 = false
  /\ snd (add_module 7 7 (Some 7) manager_without_core) = inr tt
  /\ add_or_update 7 7 (Some 7) manager_without_core
     = add_module 7 7 (Some 7) manager_without_core.
Proof.
  destruct (add_module_self_parent_skips_update manager_without_core 7 7 eq_refl)
    as (Hok & Hsame & _).
  split; [reflexivity|]. split; [exact Hok | exact Hsame].
Defined.

(** *** [add_provider] *)

(** [add_provider] never touches the stored entries, the core or the root. *)
Lemma add_provider_state self (m : ModuleType) provider export :
  modules (fst (add_provider m provider export self)) = modules self
  /\ _core_module (fst (add_provider m provider export self)) = _core_module self
  /\ _root_module (fst (add_provider m provider export self)) = _root_module self.
Proof.
  unfold add_provider, bind, get_self, raise, ret, set_heap.
  destruct (get_module self m) as [data|]; [|now repeat split].
  destruct (TreeData_is_ready (heap self) data); now repeat split.
Qed.

(** C6.  By what the dictionary holds under [module_type]: when it holds
    nothing, [add_provider] raises [ValueError] and changes nothing.  When
    it holds a node whose module reference is ready, the call returns
    normally after the reference's own [add_provider] has run with the
    same provider and [export] flag: the provider is the last of the
    reference's providers (and of its exports when [export] is set), seen
    through every node that holds the reference, and nothing else changes.
    When it holds a node whose reference is not ready, the call returns
    normally and changes nothing. *)
Theorem add_provider_cases self (m : ModuleType) provider export :
  match Dict.get (modules self) m with
  | None =>
      add_provider m provider export self = (self, inl (ValueError (DoesNotExist m)))
  | Some data =>
      if is_ready (heap self (value data)) then
        snd (add_provider m provider export self) = inr tt
        /\ modules (fst (add_provider m provider export self)) = modules self
        /\ _core_module (fst (add_provider m provider export self)) = _core_module self
        /\ _root_module (fst (add_provider m provider export self)) = _root_module self
        /\ heap (fst (add_provider m provider export self)) (value data)
           = ModuleRef_add_provider (heap self (value data)) provider export
        /\ providers (heap (fst (add_provider m provider export self)) (value data))
           = providers (heap self (value data)) ++ [provider]
        /\ exports (heap (fst (add_provider m provider export self)) (value data))
           = (if export
              then exports (heap self (value data)) ++ [provider]
              else exports (heap self (value data)))
        /\ is_ready (heap (fst (add_provider m provider export self)) (value data))
           = true
        /\ (forall r, r <> value data ->
              heap (fst (add_provider m provider export self)) r = heap self r)
      else
        add_provider m provider export self = (self, inr tt)
  end.
Proof.
  unfold add_provider, bind, get_self, raise, ret, set_heap, TreeData_is_ready,
    get_module.
  destruct (Dict.get (modules self) m) as [data|]; [|reflexivity].
  destruct (is_ready (heap self (value data))) eqn:Hready; [|reflexivity].
  cbn [fst snd modules _core_module _root_module heap].
  unfold heap_update. rewrite Nat.eqb_refl.
  cbn [ModuleRef_add_provider providers exports is_ready].
  repeat split; try assumption.
  intros r Hr. apply Nat.eqb_neq in Hr. now rewrite Hr.
Qed.

(** A ready module 5 that gets a provider with [export] set, a module 8
    that is not stored, and a module 5 that is stored but not ready. *)
Lemma add_provider_cases_witness :
  let ready := fst (add_module 5 5 None (fst (__init__ ready_heap None))) in
  let unready := fst (add_module 5 5 None manager_without_core) in
  (snd (add_provider 5 (ProviderType 9) true ready) = inr tt
   /\ providers (heap (fst (add_provider 5 (ProviderType 9) true ready)) 5)
      = [ProviderType 9]
   /\ exports (heap (fst (add_provider 5 (ProviderType 9) true ready)) 5)
      = [ProviderType 9])
  /\ add_provider 8 (ProviderType 9) true ready
     = (ready, inl (ValueError (DoesNotExist 8)))
  /\ add_provider 5 (ProviderType 9) true unready = (unready, inr tt).
Proof.
  intros ready unready.
  pose proof (add_provider_cases ready 5 (ProviderType 9) true) as Hready.
  pose proof (add_provider_cases ready 8 (ProviderType 9) true) as Habsent.
  pose proof (add_provider_cases unready 5 (ProviderType 9) true) as Hunready.
  change (Dict.get (modules ready) 5) with (Some (new_node 5 None)) in Hready.
  change (Dict.get (modules ready) 8) with (@None TreeData) in Habsent.
  change (Dict.get (modules unready) 5) with (Some (new_node 5 None)) in Hunready.
  cbv beta iota in Hready, Habsent, Hunready.
  change (is_ready (heap ready (value (new_node 5 None)))) with true in Hready.
  change (is_ready (heap unready (value (new_node 5 None)))) with false in Hunready.
  cbv beta iota in Hready, Hunready.
  destruct Hready as (Hok & _ & _ & _ & _ & Hproviders & Hexports & _).
  split; [|split; [exact Habsent | exact Hunready]].
  split; [exact Hok|]. split; [exact Hproviders | exact Hexports].
Defined.

(** Two nodes that hold the same ready module reference: a provider added
    through one module is in the provider set seen through the other. *)
Example add_provider_shared_reference :
  let self := fst (add_module 6 5 None
                (fst (add_module 5 5 None (fst (__init__ ready_heap None))))) in
  let after := fst (add_provider 5 (ProviderType 9) true self) in
  snd (add_provider 5 (ProviderType 9) true self) = inr tt
  /\ option_map (TreeData_providers (heap after)) (get_module after 6)
     = Some [ProviderType 9]
  /\ option_map (TreeData_exports (heap after)) (get_module after 6)
     = Some [ProviderType 9]
  /\ modules after = modules self.
Proof. repeat split. Qed.

(** On a module that is not ready the same call changes nothing, and on a
    module that is not stored it raises. *)
Example add_provider_not_ready_or_absent :
  let self := fst (add_module 5 5 None manager_without_core) in
  add_provider 5 (ProviderType 9) true self = (self, inr tt)
  /\ add_provider 8 (ProviderType 9) true self
     = (self, inl (ValueError (DoesNotExist 8))).
Proof. split; reflexivity. Qed.

(** *** [find_module] *)

Lemma find_module_loop_found predicate items :
  find_module_loop predicate items true
  = map Some (filter (holds predicate) (map snd items)).
Proof.
  induction items as [|[k data] rest IH]; simpl; [reflexivity|].
  destruct (holds predicate data); simpl; now rewrite IH.
Qed.

Lemma find_module_loop_fresh predicate items :
  find_module_loop predicate items false
  = match filter (holds predicate) (map snd items) with
    | [] => [None]
    | found => map Some found
    end.
Proof.
  induction items as [|[k data] rest IH]; simpl; [reflexivity|].
  destruct (holds predicate data); simpl.
  - now rewrite find_module_loop_found.
  - exact IH.
Qed.

(** What [find_module] yields, by whether a stored node matches. *)
Lemma find_module_matching self predicate :
  find_module self predicate
  = match matching self predicate with
    | [] => [None]
    | found => map Some found
    end.
Proof. unfold find_module, matching. apply find_module_loop_fresh. Qed.

(** No stored node matches exactly when [matching] is empty. *)
Lemma matching_nil self predicate :
  (forall data, In data (Dict.values (modules self)) -> holds predicate data = false)
  <-> matching self predicate = [].
Proof.
  unfold matching. split.
  - intros H. induction (Dict.values (modules self)) as [|d l IH]; simpl; [reflexivity|].
    rewrite (H d) by now left. apply IH. intros x Hx. apply H. now right.
  - intros H data Hin.
    destruct (holds predicate data) eqn:E; [|reflexivity].
    assert (Hf : In data (filter (holds predicate) (Dict.values (modules self))))
      by (apply filter_In; auto).
    rewrite H in Hf. destruct Hf.
Qed.

(** C8.  [find_module] yields the stored nodes that satisfy the predicate,
    in insertion order, and nothing else; when no stored node satisfies it,
    it yields the single marker [None] instead of nothing. *)
Theorem find_module_yields self predicate :
  find_module self predicate
  = match filter (holds predicate) (Dict.values (modules self)) with
    | [] => [None]
    | found => map Some found
    end
  /\ (forall data,
        In (Some data) (find_module self predicate)
        <-> In data (Dict.values (modules self)) /\ holds predicate data = true)
  /\ ((forall data, In data (Dict.values (modules self)) -> holds predicate data = false)
      -> find_module self predicate = [None])
  /\ (In None (find_module self predicate)
      <-> forall data, In data (Dict.values (modules self)) -> holds predicate data = false).
Proof.
  pose proof (find_module_matching self predicate) as Heq. unfold matching in Heq.
  split; [exact Heq|]. split; [|split].
  - intros data. rewrite Heq. rewrite <- filter_In.
    destruct (filter (holds predicate) (Dict.values (modules self))) as [|d l] eqn:E.
    + simpl. split; [intros [H|[]]; discriminate | intros []].
    + split.
      * intros H. apply in_map_iff in H. destruct H as (x & [= ->] & Hx). exact Hx.
      * intros H. apply in_map. exact H.
  - intros H. apply matching_nil in H. unfold matching in H. now rewrite Heq, H.
  - rewrite matching_nil. unfold matching. rewrite Heq.
    destruct (filter (holds predicate) (Dict.values (modules self))) as [|d l].
    + split; [reflexivity | intros _; now left].
    + split; [|discriminate].
      intros H. apply in_map_iff in H. destruct H as (x & Hx & _). discriminate.
Qed.

(** On the example tree: the one node without parent, the marker when
    nothing matches, and every node in insertion order. *)
Example find_module_example :
  find_module example_tree has_no_parent = [Some node_root]
  /\ find_module example_tree (node_predicate (fun _ => false) "name") = [None]
  /\ find_module example_tree (node_predicate (fun _ => true) "name")
     = [Some node_root; Some node_A; Some node_B; Some node_C].
Proof. repeat split. Qed.

(** *** [search_module_tree] *)

(** A call of [dfs] on [None] that fits. *)
Lemma dfs_None self find_predicate limit :
  dfs self find_predicate (S limit) None = visit_None find_predicate.
Proof.
  unfold visit_None. simpl. destruct (on_None find_predicate) as [e|[|]]; reflexivity.
Qed.

(** With no candidate, the search is the single call [dfs(None)]. *)
Lemma search_no_candidate self limit filter_item find_predicate :
  matching self filter_item = [] ->
  search_module_tree self (S limit) filter_item find_predicate
  = visit_None find_predicate.
Proof.
  intros H. unfold search_module_tree. rewrite find_module_matching, H.
  cbn [search_roots]. rewrite dfs_None. unfold visit_None.
  destruct (on_None find_predicate) as [e|[|]]; reflexivity.
Qed.

(** C10.  When no stored node satisfies [filter_item], the search calls
    [find_predicate] once, on the [None] that [find_module] yields.  It
    returns only if that call returns, and then returns [None]; an
    exception of that call is the exception of the search.  (A predicate
    that returns a falsy value on [None] makes [dfs] read
    [None.dependencies], which raises [AttributeError].) *)
Theorem search_module_tree_no_candidate self limit filter_item find_predicate :
  (forall data, In data (Dict.values (modules self)) -> holds filter_item data = false) ->
  fst (search_module_tree self (S limit) filter_item find_predicate) = [None]
  /\ (forall e, on_None find_predicate = inl e ->
        snd (search_module_tree self (S limit) filter_item find_predicate) = inl e)
  /\ (forall res,
        snd (search_module_tree self (S limit) filter_item find_predicate) = inr res ->
        res = None /\ on_None find_predicate = inr true)
  /\ (on_None find_predicate = inr true ->
        snd (search_module_tree self (S limit) filter_item find_predicate) = inr None)
  /\ (on_None find_predicate = inr false ->
        snd (search_module_tree self (S limit) filter_item find_predicate)
        = inl (AttributeError "dependencies")).
Proof.
  intros H. apply matching_nil in H.
  rewrite (search_no_candidate self limit filter_item find_predicate H).
  unfold visit_None. cbn [fst snd].
  split; [reflexivity|].
  destruct (on_None find_predicate) as [e|[|]]; repeat split;
    try discriminate; try reflexivity; intros; congruence.
Qed.

(** On the example tree with a filter that no node satisfies: the one call
    is on [None], and the [AttributeError] of the predicate, which reads
    [data.value], is what the search raises. *)
Lemma search_module_tree_no_candidate_witness :
  (forall data, In data (Dict.values (modules example_tree)) ->
     holds (node_predicate (fun _ => false) "name") data = false)
  /\ search_module_tree example_tree 1000
       (node_predicate (fun _ => false) "name") is_module_C
     = ([None], inl (AttributeError "value")).
Proof.
  assert (H : forall data, In data (Dict.values (modules example_tree)) ->
                holds (node_predicate (fun _ => false) "name") data = false)
    by reflexivity.
  split; [exact H|].
  destruct (search_module_tree_no_candidate example_tree 999
              (node_predicate (fun _ => false) "name") is_module_C H)
    as (Hseen & Hraise & _).
  specialize (Hraise _ eq_refl).
  destruct (search_module_tree example_tree 1000
              (node_predicate (fun _ => false) "name") is_module_C) as [seen res].
  simpl in Hseen, Hraise. now subst.
Defined.

(** The two outcomes for predicates that return on [None]:
    [lambda data: data is None] and [lambda data: data is not None]. *)
Example search_module_tree_no_candidate_returning :
  search_module_tree example_tree 1000 (node_predicate (fun _ => false) "name")
    {| holds := fun _ => false; on_None := inr true |}
  = ([None], inr None)
  /\ search_module_tree example_tree 1000 (node_predicate (fun _ => false) "name")
       {| holds := fun _ => true; on_None := inr false |}
     = ([None], inl (AttributeError "dependencies")).
Proof. split; reflexivity. Qed.

(** **** Depth-first order *)

Lemma take_until_not_found {A} (p : A -> bool) l :
  find p l = None -> take_until p l = l.
Proof.
  induction l as [|x l IH]; simpl; [reflexivity|].
  destruct (p x); [discriminate|]. intros H. now rewrite IH.
Qed.

Lemma take_until_app_found {A} (p : A -> bool) l1 l2 x :
  find p l1 = Some x -> take_until p (l1 ++ l2) = take_until p l1.
Proof.
  induction l1 as [|y l1 IH]; simpl; [discriminate|].
  destruct (p y); [reflexivity|]. intros H. now rewrite IH.
Qed.

Lemma take_until_app_not_found {A} (p : A -> bool) l1 l2 :
  find p l1 = None -> take_until p (l1 ++ l2) = l1 ++ take_until p l2.
Proof.
  induction l1 as [|y l1 IH]; simpl; [reflexivity|].
  destruct (p y); [discriminate|]. intros H. now rewrite IH.
Qed.

Lemma find_app_found {A} (p : A -> bool) l1 l2 x :
  find p l1 = Some x -> find p (l1 ++ l2) = Some x.
Proof.
  induction l1 as [|y l1 IH]; simpl; [discriminate|].
  destruct (p y); auto.
Qed.

Lemma find_app_not_found {A} (p : A -> bool) l1 l2 :
  find p l1 = None -> find p (l1 ++ l2) = find p l2.
Proof.
  induction l1 as [|y l1 IH]; simpl; [reflexivity|].
  destruct (p y); [discriminate | auto].
Qed.

(** The loop over the dependencies is the loop over the stored children. *)
Lemma dfs_children_search_roots self visit ids :
  dfs_children self visit ids
  = search_roots visit (map Some (children_of self ids)).
Proof.
  induction ids as [|id rest IH]; simpl; [reflexivity|].
  destruct (get_module self id) as [child|]; [|exact IH].
  simpl. destruct (visit (Some child)) as [seen [e|[found|]]]; try reflexivity.
  now rewrite IH.
Qed.

(** [dfs] on a node follows the pre-order of its subtree, and the loop over
    a list of nodes follows the pre-order of the forest, whenever the
    nesting that fits covers the levels of the subtree. *)
Lemma dfs_follows_preorder self find_predicate :
  (forall n node order,
     Preorder self n node order ->
     forall limit, n <= limit ->
       dfs self find_predicate limit (Some node) = follows find_predicate order)
  /\ (forall n nodes order,
        PreorderForest self n nodes order ->
        forall limit, n <= limit ->
          search_roots (dfs self find_predicate limit) (map Some nodes)
          = follows find_predicate order).
Proof.
  apply Preorder_mutind.
  - intros n node below _ IH limit Hle.
    destruct limit as [|limit']; [lia|].
    unfold follows. simpl.
    destruct (holds find_predicate node); [reflexivity|].
    rewrite dfs_children_search_roots, IH by lia. reflexivity.
  - intros n limit _. reflexivity.
  - intros n node rest first others _ IHnode _ IHrest limit Hle.
    simpl. rewrite IHnode by exact Hle. unfold follows at 1.
    destruct (find (holds find_predicate) first) as [x|] eqn:E.
    + unfold follows.
      now rewrite (take_until_app_found _ _ _ _ E), (find_app_found _ _ _ _ E).
    + rewrite IHrest by exact Hle. unfold follows.
      rewrite (take_until_app_not_found _ _ _ E), (find_app_not_found _ _ _ E).
      rewrite (take_until_not_found _ _ E), map_app. reflexivity.
Qed.

Lemma children_of_stored self ids child :
  In child (children_of self ids) ->
  exists id, In id ids /\ get_module self id = Some child.
Proof.
  induction ids as [|id rest IH]; simpl; [intros []|].
  destruct (get_module self id) as [c|] eqn:E.
  - intros [->|H]; [exists id; auto|].
    destruct (IH H) as (i & Hi & Hg). exists i. auto.
  - intros H. destruct (IH H) as (i & Hi & Hg). exists i. auto.
Qed.

Lemma preorder_forest_exists self n nodes :
  (forall node, In node nodes -> exists order, Preorder self n node order) ->
  exists order, PreorderForest self n nodes order.
Proof.
  induction nodes as [|node rest IH]; intros H.
  - exists []. constructor.
  - destruct (H node (or_introl eq_refl)) as [first Hfirst].
    destruct IH as [others Hothers]; [intros x Hx; apply H; now right|].
    exists (first ++ others). now constructor.
Qed.

Lemma preorder_exists self rank :
  well_ranked self rank ->
  forall n k node,
    get_module self k = Some node -> rank k < n ->
    exists order, Preorder self n node order.
Proof.
  intros Hranked. induction n as [|n IH]; intros k node Hstored Hrank; [lia|].
  destruct (preorder_forest_exists self n (children_of self (dependencies node)))
    as [below Hbelow].
  - intros child Hchild.
    destruct (children_of_stored _ _ _ Hchild) as (id & Hid & Hget).
    apply (IH id child Hget).
    pose proof (Hranked k node Hstored id child Hid Hget). lia.
  - exists (node :: below). now constructor.
Qed.

(** C4.  Let [order] list the forest below the nodes that satisfy
    [filter_item], taken in insertion order: each node first, then the
    subtrees of its children one after the other in the order in which the
    children were appended.  With room for more nested calls of [dfs] than
    the forest has levels, [search_module_tree] calls [find_predicate] on the nodes of
    [order] one by one up to the first that satisfies it, and returns that
    node; it returns [None] when no node of [order] satisfies it.  (With no
    node satisfying [filter_item] the search is the single call on [None].) *)
Theorem search_module_tree_depth_first self filter_item find_predicate n order limit :
  PreorderForest self n (matching self filter_item) order ->
  n < limit ->
  search_module_tree self limit filter_item find_predicate
  = match matching self filter_item with
    | [] => visit_None find_predicate
    | _ :: _ =>
        (map Some (take_until (holds find_predicate) order),
         inr (find (holds find_predicate) order))
    end.
Proof.
  intros Hforest Hlt.
  destruct (matching self filter_item) as [|root rest] eqn:Hroots.
  - destruct limit as [|limit']; [lia|]. now apply search_no_candidate.
  - unfold search_module_tree. rewrite find_module_matching, Hroots.
    destruct (dfs_follows_preorder self find_predicate) as [_ H].
    apply (H n (root :: rest) order Hforest limit). lia.
Qed.

Lemma example_tree_modules :
  modules example_tree = [(0, node_root); (1, node_A); (2, node_B); (3, node_C)].
Proof. reflexivity. Qed.

Lemma example_tree_preorder :
  PreorderForest example_tree 3 (matching example_tree has_no_parent)
    [node_root; node_A; node_C; node_B].
Proof.
  change (PreorderForest example_tree 3 [node_root]
            ((node_root :: ([node_A; node_C] ++ [node_B] ++ [])) ++ [])).
  apply Forest_cons; [|apply Forest_nil].
  apply Preorder_node. change (children_of example_tree (dependencies node_root))
    with [node_A; node_B].
  apply Forest_cons; [|apply Forest_cons; [|apply Forest_nil]].
  - change [node_A; node_C] with (node_A :: ([node_C] ++ [])).
    apply Preorder_node. change (children_of example_tree (dependencies node_A))
      with [node_C].
    apply Forest_cons; [|apply Forest_nil].
    apply (Preorder_node example_tree 0 node_C []). apply Forest_nil.
  - apply (Preorder_node example_tree 1 node_B []). apply Forest_nil.
Defined.

(** In the example the calls of [find_predicate] are on root, A and C, in
    this order, C is returned, and B is never looked at. *)
Lemma search_module_tree_depth_first_witness :
  PreorderForest example_tree 3 (matching example_tree has_no_parent)
    [node_root; node_A; node_C; node_B]
  /\ 3 < 1000
  /\ search_module_tree example_tree 1000 has_no_parent is_module_C
     = ([Some node_root; Some node_A; Some node_C], inr (Some node_C))
  /\ ~ In (Some node_B)
         (fst (search_module_tree example_tree 1000 has_no_parent is_module_C)).
Proof.
  assert (Hlt : 3 < 1000) by (apply Nat.ltb_lt; reflexivity).
  assert (Hsearch :
            search_module_tree example_tree 1000 has_no_parent is_module_C
            = ([Some node_root; Some node_A; Some node_C], inr (Some node_C))).
  { exact (eq_trans
             (search_module_tree_depth_first example_tree has_no_parent is_module_C
                3 [node_root; node_A; node_C; node_B] 1000 example_tree_preorder Hlt)
             eq_refl). }
  split; [exact example_tree_preorder|]. split; [exact Hlt|].
  split; [exact Hsearch|].
  rewrite Hsearch. simpl. intros [H|[H|[H|[]]]]; discriminate H.
Defined.

(** **** Trees built through the methods have no cycles *)

Lemma forward_app_leaf d m node :
  forward d -> dependencies node = [] -> forward (d ++ [(m, node)]).
Proof.
  intros Hd Hleaf. induction d as [|[k n] rest IH]; simpl.
  - rewrite Hleaf. split; [intros id []|exact I].
  - destruct Hd as [Hhead Hrest]. split; [|auto].
    intros id Hid. unfold Dict.keys. rewrite map_app. apply in_or_app. left.
    now apply Hhead.
Qed.

(** Replacing a node by one with the same dependencies. *)
Lemma forward_set_same_dependencies d k data node :
  forward d -> Dict.get d k = Some data ->
  dependencies node = dependencies data ->
  forward (Dict.set d k node).
Proof.
  intros Hd Hget Hdeps. induction d as [|[k' n] rest IH]; simpl in *; [discriminate|].
  destruct Hd as [Hhead Hrest].
  destruct (Nat.eqb k' k) eqn:E; simpl.
  - injection Hget as <-. rewrite Hdeps. now split.
  - split; [|auto]. intros id Hid. apply DictFacts.In_keys_set. now apply Hhead.
Qed.

(** Appending a new leaf and listing it as a dependency of an older node. *)
Lemma forward_add_child d m leaf p pdata :
  forward d -> Dict.get d p = Some pdata -> dependencies leaf = [] ->
  forward (Dict.set (d ++ [(m, leaf)]) p (append_dependency pdata m)).
Proof.
  intros Hd Hget Hleaf. induction d as [|[k' n] rest IH]; simpl in *; [discriminate|].
  destruct Hd as [Hhead Hrest].
  destruct (Nat.eqb k' p) eqn:E; simpl.
  - injection Hget as <-. split; [|now apply forward_app_leaf].
    intros id Hid. unfold Dict.keys. rewrite map_app. apply in_or_app.
    apply in_app_or in Hid. destruct Hid as [Hid|[<-|[]]].
    + left. now apply Hhead.
    + right. now left.
  - split; [|auto]. intros id Hid. apply DictFacts.In_keys_set.
    unfold Dict.keys. rewrite map_app. apply in_or_app. left. now apply Hhead.
Qed.

Lemma add_module_acyclic self (m : ModuleType) (v : ObjRef) p :
  acyclic self -> p <> Some m -> acyclic (fst (add_module m v p self)).
Proof.
  intros [Hnd Hfw] Hne.
  destruct (Dict.mem (modules self) m) eqn:Hm.
  - rewrite add_module_duplicate by assumption. now split.
  - pose proof (DictFacts.mem_false_get _ _ Hm) as Hnone.
    destruct p as [q|].
    + assert (Hqm : q <> m) by congruence.
      destruct (Dict.get (Dict.set (modules self) m (new_node v (Some q))) q)
        as [pd|] eqn:Hq.
      * rewrite (add_module_parent_found _ _ _ _ _ Hm Hq). cbn [fst modules].
        split; [now repeat apply DictFacts.NoDup_keys_set|].
        rewrite DictFacts.get_set_ne in Hq by congruence.
        rewrite (DictFacts.set_absent _ _ _ Hnone).
        now apply forward_add_child.
      * rewrite (add_module_parent_missing _ _ _ _ Hm Hq). cbn [fst modules].
        split; [now apply DictFacts.NoDup_keys_set|].
        rewrite (DictFacts.set_absent _ _ _ Hnone). now apply forward_app_leaf.
    + rewrite add_module_no_parent by assumption. cbn [fst modules].
      split; [now apply DictFacts.NoDup_keys_set|].
      rewrite (DictFacts.set_absent _ _ _ Hnone). now apply forward_app_leaf.
Qed.

Lemma update_module_acyclic self (m : ModuleType) (v : ObjRef) p :
  acyclic self -> acyclic (fst (update_module m v p self)).
Proof.
  intros [Hnd Hfw].
  destruct (get_module self m) as [data|] eqn:Hget.
  - rewrite (update_module_present _ _ _ _ _ Hget). cbn [fst modules].
    split; [now apply DictFacts.NoDup_keys_set|].
    now apply (forward_set_same_dependencies _ _ data).
  - rewrite update_module_absent by assumption. now split.
Qed.

Lemma add_or_update_state self (m : ModuleType) (v : ObjRef) p :
  fst (add_or_update m v p self) = fst (add_module m v p self)
  \/ fst (add_or_update m v p self)
     = fst (update_module m v p (fst (add_module m v p self))).
Proof.
  unfold add_or_update, try_except_ValueError.
  destruct (add_module m v p self) as [self' [e|[]]]; [|now left].
  destruct (is_ValueError e); [now right | now left].
Qed.

Lemma built_acyclic self : built self -> acyclic self.
Proof.
  induction 1 as [h core | self m v p _ IH Hne | self m v p _ IH
                  | self m v p _ IH Hne | self m provider export _ IH].
  - destruct core as [r|]; unfold __init__.
    + apply add_module_acyclic; [|discriminate].
      split; [constructor | exact I].
    + split; [constructor | exact I].
  - now apply add_module_acyclic.
  - now apply update_module_acyclic.
  - destruct (add_or_update_state self m v p) as [-> | ->].
    + now apply add_module_acyclic.
    + now apply update_module_acyclic, add_module_acyclic.
  - destruct (add_provider_state self m provider export) as [Hmod _].
    unfold acyclic. rewrite Hmod. exact IH.
Qed.

Lemma rank_in_le d k : rank_in d k <= List.length d.
Proof.
  induction d as [|[k' n] rest IH]; simpl; [lia|].
  destruct (Nat.eqb k' k); lia.
Qed.

Lemma forward_dependencies_stored d k node id :
  forward d -> Dict.get d k = Some node -> In id (dependencies node) ->
  In id (Dict.keys d).
Proof.
  induction d as [|[k' n] rest IH]; simpl; [discriminate|].
  intros [Hhead Hrest]. destruct (Nat.eqb k' k).
  - intros [= <-] Hid. right. now apply Hhead.
  - intros Hget Hid. right. now apply IH.
Qed.

(** In an acyclic dictionary the position from the end ranks every
    dependency below its owner. *)
Lemma forward_rank d k node id :
  NoDup (Dict.keys d) -> forward d ->
  Dict.get d k = Some node -> In id (dependencies node) ->
  rank_in d id < rank_in d k.
Proof.
  induction d as [|[k' n] rest IH]; simpl; [discriminate|].
  intros Hnd [Hhead Hrest] Hget Hid.
  inversion Hnd as [|? ? Hnotin Hnd']; subst.
  assert (Hlater : In id (Dict.keys rest)).
  { destruct (Nat.eqb k' k); [injection Hget as <-; now apply Hhead|].
    exact (forward_dependencies_stored _ _ _ _ Hrest Hget Hid). }
  assert (Hne : Nat.eqb k' id = false).
  { apply Nat.eqb_neq. intros ->. contradiction. }
  rewrite Hne. destruct (Nat.eqb k' k).
  - pose proof (rank_in_le rest id). lia.
  - now apply IH.
Qed.

Lemma acyclic_well_ranked self :
  acyclic self -> well_ranked self (rank_in (modules self)).
Proof.
  intros [Hnd Hfw] k node Hget id child Hid _.
  exact (forward_rank _ _ _ _ Hnd Hfw Hget Hid).
Qed.

(** Below any choice of nodes of a built tree there is a pre-order, with no
    more levels than the tree has entries. *)
Lemma built_preorder self predicate :
  built self ->
  exists order,
    PreorderForest self (S (List.length (modules self))) (matching self predicate) order.
Proof.
  intros Hbuilt. pose proof (built_acyclic self Hbuilt) as Hacyclic.
  apply preorder_forest_exists. intros node Hin.
  unfold matching in Hin. apply filter_In in Hin. destruct Hin as [Hin _].
  destruct (DictFacts.In_values_get _ _ (proj1 Hacyclic) Hin) as [k Hget].
  apply (preorder_exists self _ (acyclic_well_ranked self Hacyclic) _ k node Hget).
  pose proof (rank_in_le (modules self) k). lia.
Qed.

(** The example tree is built. *)
Lemma example_tree_built : built example_tree.
Proof.
  unfold example_tree, manager_without_core.
  repeat (apply built_add_module; [|discriminate]). apply built_init.
Qed.

(** X19.  A tree built through the constructor, [add_module],
    [update_module], [add_or_update] and [add_provider], with no module
    given itself as parent, has no cycles: what lies below a stored node,
    and below the nodes that satisfy a predicate, unfolds into a finite
    forest that can be listed parent first, with no more levels than the
    tree has entries plus one. *)
Theorem built_tree_is_finite self :
  built self ->
  (forall (k : ModuleType) node,
     get_module self k = Some node ->
     exists order, Preorder self (S (List.length (modules self))) node order)
  /\ (forall predicate,
        exists order,
          PreorderForest self (S (List.length (modules self)))
            (matching self predicate) order).
Proof.
  intros Hbuilt. pose proof (built_acyclic self Hbuilt) as Hacyclic.
  assert (Hnode : forall (k : ModuleType) node,
            get_module self k = Some node ->
            exists order, Preorder self (S (List.length (modules self))) node order).
  { intros k node Hget.
    apply (preorder_exists self _ (acyclic_well_ranked self Hacyclic) _ k node Hget).
    pose proof (rank_in_le (modules self) k). lia. }
  split; [exact Hnode|].
  intros predicate. apply preorder_forest_exists. intros node Hin.
  unfold matching in Hin. apply filter_In in Hin. destruct Hin as [Hin _].
  destruct (DictFacts.In_values_get _ _ (proj1 Hacyclic) Hin) as [k Hget].
  exact (Hnode k node Hget).
Qed.

Lemma built_tree_is_finite_witness :
  built example_tree
  /\ get_module example_tree 0 = Some node_root
  /\ exists order, Preorder example_tree 5 node_root order.
Proof.
  split; [exact example_tree_built|]. split; [reflexivity|].
  exact (proj1 (built_tree_is_finite example_tree example_tree_built) 0 node_root eq_refl).
Defined.

(** A module that is its own parent makes the search exhaust the stack,
    whatever room there is, when nothing matches on the way. *)
Lemma dfs_self_loop_exhausts self find_predicate node k limit :
  get_module self k = Some node ->
  dependencies node = [k] ->
  holds find_predicate node = false ->
  snd (dfs self find_predicate limit (Some node)) = inl RecursionError.
Proof.
  intros Hget Hdeps Hfalse. induction limit as [|limit IH]; [reflexivity|].
  simpl. rewrite Hfalse, Hdeps. simpl. rewrite Hget.
  destruct (dfs self find_predicate limit (Some node)) as [seen res].
  simpl in IH. subst res. reflexivity.
Qed.

(** *** [update_module], [add_or_update] and [add_module_dependency] as a
    user meets them *)

(** X4.  [update_module] on a stored module returns normally for every
    parent it is given, stored or not.  It replaces the value, takes the new
    parent when one is given and keeps the old one otherwise, and changes
    nothing else: the module keeps its dependency list and its place in the
    iteration order, and every other node, in particular the dependency
    list of the old and of the new parent, is what it was. *)
Theorem update_module_changes_one_node self (m : ModuleType) (v : ObjRef)
    (p : option ModuleType) data :
  get_module self m = Some data ->
  snd (update_module m v p self) = inr tt
  /\ get_module (fst (update_module m v p self)) m
     = Some {| value := v; parent := or_parent p (parent data);
               dependencies := dependencies data |}
  /\ (forall k, k <> m ->
        get_module (fst (update_module m v p self)) k = get_module self k)
  /\ Dict.keys (modules (fst (update_module m v p self))) = Dict.keys (modules self)
  /\ _root_module (fst (update_module m v p self)) = _root_module self
  /\ _core_module (fst (update_module m v p self)) = _core_module self
  /\ heap (fst (update_module m v p self)) = heap self.
Proof.
  intros Hget. rewrite (update_module_present _ _ _ _ _ Hget).
  cbn [fst snd modules _root_module _core_module heap]. unfold get_module.
  cbn [modules]. repeat split.
  - apply DictFacts.get_set_eq.
  - intros k Hk. apply DictFacts.get_set_ne. congruence.
  - apply DictFacts.keys_set_present. exact (DictFacts.mem_get_Some _ _ _ Hget).
Qed.

Lemma update_module_changes_one_node_witness :
  get_module example_tree 3 = Some node_C
  /\ snd (update_module 3 9 (Some 2) example_tree) = inr tt
  /\ get_module (fst (update_module 3 9 (Some 2) example_tree)) 3
     = Some {| value := 9; parent := Some 2; dependencies := [] |}
  /\ get_module (fst (update_module 3 9 (Some 2) example_tree)) 2 = Some node_B
  /\ get_module (fst (update_module 3 9 (Some 2) example_tree)) 1 = Some node_A.
Proof.
  assert (Hget : get_module example_tree 3 = Some node_C) by reflexivity.
  destruct (update_module_changes_one_node example_tree 3 9 (Some 2) node_C Hget)
    as (Hok & Hm & Hother & _).
  split; [exact Hget|]. split; [exact Hok|]. split; [exact Hm|].
  split; [rewrite Hother by discriminate | rewrite Hother by discriminate];
    reflexivity.
Defined.

Lemma or_parent_idempotent p q : or_parent p (or_parent p q) = or_parent p q.
Proof. now destruct p. Qed.

(** After [add_or_update] the module is stored with the value it was given,
    and giving it the same parent again would not change its parent. *)
Lemma add_or_update_stored self (m : ModuleType) (v : ObjRef) p :
  snd (add_or_update m v p self) = inr tt
  /\ exists data,
       get_module (fst (add_or_update m v p self)) m = Some data
       /\ value data = v
       /\ or_parent p (parent data) = parent data.
Proof.
  unfold add_or_update, try_except_ValueError.
  destruct (Dict.mem (modules self) m) eqn:Hm.
  - rewrite add_module_duplicate by assumption. cbn [is_ValueError].
    destruct (DictFacts.mem_true_get _ _ Hm) as [data Hget].
    rewrite (update_module_present _ _ _ _ _ Hget). cbn [fst snd].
    split; [reflexivity|]. eexists. split.
    + unfold get_module. cbn [modules]. apply DictFacts.get_set_eq.
    + split; [reflexivity|]. apply or_parent_idempotent.
  - destruct p as [q|].
    + destruct (Dict.get (Dict.set (modules self) m (new_node v (Some q))) q)
        as [pd|] eqn:Hq.
      * rewrite (add_module_parent_found _ _ _ _ _ Hm Hq). cbn [fst snd].
        split; [reflexivity|]. unfold get_module. cbn [modules].
        destruct (Nat.eq_dec q m) as [->|Hne].
        -- rewrite DictFacts.get_set_eq in Hq. injection Hq as <-.
           eexists. split; [apply DictFacts.get_set_eq|]. now split.
        -- exists (new_node v (Some q)). split; [|now split].
           rewrite DictFacts.get_set_ne by congruence. apply DictFacts.get_set_eq.
      * rewrite (add_module_parent_missing _ _ _ _ Hm Hq). cbn [is_ValueError].
        set (failed := {| modules := Dict.set (modules self) m (new_node v (Some q));
                          _core_module := _core_module self;
                          _root_module := _root_module self;
                          heap := heap self |}).
        assert (Hstored : get_module failed m = Some (new_node v (Some q))).
        { unfold get_module, failed. cbn [modules]. apply DictFacts.get_set_eq. }
        rewrite (update_module_present _ _ _ _ _ Hstored). cbn [fst snd].
        split; [reflexivity|]. eexists. split.
        -- unfold get_module. cbn [modules]. apply DictFacts.get_set_eq.
        -- now split.
    + rewrite add_module_no_parent by assumption. cbn [fst snd].
      split; [reflexivity|]. exists (new_node v None). split; [|now split].
      unfold get_module. cbn [modules]. apply DictFacts.get_set_eq.
Qed.

(** X5.  [add_or_update] never raises: whichever [ValueError] [add_module]
    raises, the module is stored by the time [update_module] runs.
    Afterwards the module is stored with the value that was given, and
    with the parent that was given when one was. *)
Theorem add_or_update_never_raises self (m : ModuleType) (v : ObjRef)
    (p : option ModuleType) :
  snd (add_or_update m v p self) = inr tt
  /\ exists data,
       get_module (fst (add_or_update m v p self)) m = Some data
       /\ value data = v
       /\ (forall q, p = Some q -> parent data = Some q).
Proof.
  destruct (add_or_update_stored self m v p) as (Hok & data & Hget & Hv & Hp).
  split; [exact Hok|]. exists data. repeat split; try assumption.
  intros q ->. simpl in Hp. congruence.
Qed.

(** X6.  [add_or_update] is idempotent: a second call with the same
    arguments returns normally and leaves the manager exactly as the first
    call left it; in particular the module is not appended to its parent's
    dependency list a second time. *)
Theorem add_or_update_idempotent self (m : ModuleType) (v : ObjRef)
    (p : option ModuleType) :
  add_or_update m v p (fst (add_or_update m v p self))
  = (fst (add_or_update m v p self), inr tt).
Proof.
  destruct (add_or_update_stored self m v p) as (_ & data & Hget & Hv & Hp).
  set (once := fst (add_or_update m v p self)) in *.
  unfold add_or_update, try_except_ValueError.
  rewrite add_module_duplicate by exact (DictFacts.mem_get_Some _ _ _ Hget).
  cbn [is_ValueError].
  rewrite (update_module_present _ _ _ _ _ Hget), Hp, <- Hv.
  assert (Hsame : {| value := value data; parent := parent data;
                     dependencies := dependencies data |} = data)
    by now destruct data.
  rewrite Hsame, (DictFacts.set_same _ _ _ Hget). now destruct once.
Qed.

Lemma add_module_dependency_present self (p d : ModuleType) data :
  get_module self p = Some data ->
  add_module_dependency p d self
  = ({| modules := Dict.set (modules self) p (append_dependency data d);
        _core_module := _core_module self;
        _root_module := _root_module self;
        heap := heap self |},
     inr tt).
Proof.
  intros H. unfold add_module_dependency, bind, get_self, set_modules. now rewrite H.
Qed.

Lemma add_module_dependency_absent self (p d : ModuleType) :
  get_module self p = None ->
  add_module_dependency p d self
  = (self, inl (ValueError (DependencyParentDoesNotExist p))).
Proof.
  intros H. unfold add_module_dependency, bind, get_self, raise. now rewrite H.
Qed.

Lemma children_of_app self ids1 ids2 :
  children_of self (ids1 ++ ids2) = children_of self ids1 ++ children_of self ids2.
Proof.
  induction ids1 as [|id rest IH]; simpl; [reflexivity|].
  destruct (get_module self id); simpl; now rewrite IH.
Qed.

(** The children only depend on the nodes of the listed modules. *)
Lemma children_of_ext self self' ids :
  (forall id, In id ids -> get_module self' id = get_module self id) ->
  children_of self' ids = children_of self ids.
Proof.
  induction ids as [|id rest IH]; intros H; simpl; [reflexivity|].
  rewrite (H id) by now left.
  rewrite IH by (intros x Hx; apply H; now right). reflexivity.
Qed.

Lemma children_of_length self ids :
  (forall id, In id ids -> exists child, get_module self id = Some child) ->
  List.length (children_of self ids) = List.length ids.
Proof.
  induction ids as [|id rest IH]; intros H; simpl; [reflexivity|].
  destruct (H id (or_introl eq_refl)) as [child ->]. simpl.
  rewrite IH; [reflexivity|]. intros x Hx. apply H. now right.
Qed.

(** X7.  [add_module_dependency] only asks for the parent to be stored.  It
    appends the dependency whether or not that module is stored: a stored
    one shows up as the last child that [get_module_dependencies] returns,
    one that is not stored is kept in the list but never returned.  (The
    parent is assumed not to list itself.) *)
Theorem add_module_dependency_appends_child self (p d : ModuleType) data :
  get_module self p = Some data ->
  ~ In p (dependencies data) ->
  d <> p ->
  snd (add_module_dependency p d self) = inr tt
  /\ get_module (fst (add_module_dependency p d self)) p
     = Some (append_dependency data d)
  /\ get_module_dependencies (fst (add_module_dependency p d self)) p None
     = get_module_dependencies self p None
       ++ match get_module self d with Some child => [child] | None => [] end.
Proof.
  intros Hget Hself Hne. rewrite (add_module_dependency_present _ _ _ _ Hget).
  cbn [fst snd]. split; [reflexivity|].
  set (after := {| modules := Dict.set (modules self) p (append_dependency data d);
                   _core_module := _core_module self;
                   _root_module := _root_module self;
                   heap := heap self |}).
  assert (Hp : get_module after p = Some (append_dependency data d)).
  { unfold get_module, after. cbn [modules]. apply DictFacts.get_set_eq. }
  assert (Hother : forall k, k <> p -> get_module after k = get_module self k).
  { intros k Hk. unfold get_module, after. cbn [modules].
    apply DictFacts.get_set_ne. congruence. }
  split; [exact Hp|].
  unfold get_module_dependencies. rewrite Hp, Hget. cbn [append_dependency dependencies].
  rewrite children_of_app. f_equal.
  - apply children_of_ext. intros id Hid. apply Hother. intros ->. contradiction.
  - simpl. rewrite (Hother d Hne). now destruct (get_module self d).
Qed.

Lemma add_module_dependency_appends_child_witness :
  get_module example_tree 2 = Some node_B
  /\ snd (add_module_dependency 2 3 example_tree) = inr tt
  /\ get_module_dependencies (fst (add_module_dependency 2 3 example_tree)) 2 None
     = [node_C]
  /\ get_module_dependencies (fst (add_module_dependency 2 8 example_tree)) 2 None
     = [].
Proof.
  assert (Hget : get_module example_tree 2 = Some node_B) by reflexivity.
  assert (Hself : ~ In 2 (dependencies node_B)) by (intros []).
  destruct (add_module_dependency_appends_child example_tree 2 3 node_B Hget Hself)
    as (Hok & _ & Hchildren); [discriminate|].
  destruct (add_module_dependency_appends_child example_tree 2 8 node_B Hget Hself)
    as (_ & _ & Hdangling); [discriminate|].
  split; [exact Hget|]. split; [exact Hok|]. split.
  - rewrite Hchildren. reflexivity.
  - rewrite Hdangling. reflexivity.
Defined.

(** In a built tree every dependency of a stored module is another stored
    module. *)
Lemma built_dependency_stored self (k id : ModuleType) node :
  built self -> get_module self k = Some node -> In id (dependencies node) ->
  id <> k /\ exists child, get_module self id = Some child.
Proof.
  intros Hbuilt Hget Hid. destruct (built_acyclic self Hbuilt) as [Hnd Hfw].
  split.
  - pose proof (forward_rank _ _ _ _ Hnd Hfw Hget Hid). intros ->. lia.
  - apply DictFacts.In_keys_get.
    exact (forward_dependencies_stored _ _ _ _ Hfw Hget Hid).
Qed.

(** X8.  In a tree built through the constructor, [add_module],
    [update_module], [add_or_update] and [add_provider], with no module
    given itself as parent, no dependency list has a dangling or a
    self-referring entry: every listed module is stored and is not the
    owner, so [get_module_dependencies] returns one child per entry. *)
Theorem built_children_complete self (k : ModuleType) node :
  built self ->
  get_module self k = Some node ->
  List.length (get_module_dependencies self k None) = List.length (dependencies node)
  /\ forall id, In id (dependencies node) ->
       id <> k /\ Dict.mem (modules self) id = true.
Proof.
  intros Hbuilt Hget. split.
  - unfold get_module_dependencies. rewrite Hget. apply children_of_length.
    intros id Hid. exact (proj2 (built_dependency_stored self k id node Hbuilt Hget Hid)).
  - intros id Hid.
    destruct (built_dependency_stored self k id node Hbuilt Hget Hid) as [Hne [c Hc]].
    split; [exact Hne|]. exact (DictFacts.mem_get_Some _ _ _ Hc).
Qed.

Lemma built_children_complete_witness :
  built example_tree
  /\ get_module example_tree 0 = Some node_root
  /\ List.length (get_module_dependencies example_tree 0 None) = 2.
Proof.
  split; [exact example_tree_built|]. split; [reflexivity|].
  exact (proj1 (built_children_complete example_tree 0 node_root
                  example_tree_built eq_refl)).
Defined.

(** X9.  Adding a module under a stored parent of a built tree returns
    normally and makes the new node the last child of that parent: the
    children that [get_module_dependencies] returned before are returned
    unchanged and in the same order, followed by the new node. *)
Theorem add_module_then_children self (m : ModuleType) (v : ObjRef)
    (p : ModuleType) pdata :
  built self ->
  Dict.mem (modules self) m = false ->
  get_module self p = Some pdata ->
  snd (add_module m v (Some p) self) = inr tt
  /\ get_module (fst (add_module m v (Some p) self)) m = Some (new_node v (Some p))
  /\ get_module_dependencies (fst (add_module m v (Some p) self)) p None
     = get_module_dependencies self p None ++ [new_node v (Some p)].
Proof.
  intros Hbuilt Hm Hp.
  assert (Hne : p <> m).
  { intros ->. unfold get_module in Hp.
    rewrite (DictFacts.mem_false_get _ _ Hm) in Hp. discriminate. }
  assert (Hq : Dict.get (Dict.set (modules self) m (new_node v (Some p))) p = Some pdata)
    by (rewrite DictFacts.get_set_ne by congruence; exact Hp).
  rewrite (add_module_parent_found _ _ _ _ _ Hm Hq). cbn [fst snd].
  split; [reflexivity|].
  match goal with |- get_module ?s m = _ /\ _ => set (after := s) end.
  assert (Hafter_m : get_module after m = Some (new_node v (Some p))).
  { unfold get_module, after. cbn [modules].
    rewrite DictFacts.get_set_ne by congruence. apply DictFacts.get_set_eq. }
  assert (Hafter_p : get_module after p = Some (append_dependency pdata m)).
  { unfold get_module, after. cbn [modules]. apply DictFacts.get_set_eq. }
  assert (Hother : forall k, k <> p -> k <> m -> get_module after k = get_module self k).
  { intros k Hkp Hkm. unfold get_module, after. cbn [modules].
    rewrite DictFacts.get_set_ne by congruence.
    apply DictFacts.get_set_ne. congruence. }
  split; [exact Hafter_m|].
  unfold get_module_dependencies. rewrite Hafter_p, Hp.
  cbn [append_dependency dependencies]. rewrite children_of_app. f_equal.
  - apply children_of_ext. intros id Hid.
    destruct (built_dependency_stored self p id pdata Hbuilt Hp Hid) as [Hidp [c Hc]].
    apply Hother; [exact Hidp|]. intros ->. unfold get_module in Hc.
    rewrite (DictFacts.mem_false_get _ _ Hm) in Hc. discriminate.
  - simpl. now rewrite Hafter_m.
Qed.

Lemma add_module_then_children_witness :
  built example_tree
  /\ Dict.mem (modules example_tree) 4 = false
  /\ get_module example_tree 1 = Some node_A
  /\ get_module_dependencies (fst (add_module 4 4 (Some 1) example_tree)) 1 None
     = [node_C; new_node 4 (Some 1)].
Proof.
  split; [exact example_tree_built|]. split; [reflexivity|]. split; [reflexivity|].
  destruct (add_module_then_children example_tree 4 4 1 node_A
              example_tree_built eq_refl eq_refl) as (_ & _ & H).
  exact (eq_trans H eq_refl).
Defined.

(** *** What no sequence of calls undoes *)

Lemma add_module_keys self (m : ModuleType) (v : ObjRef) p :
  Dict.keys (modules (fst (add_module m v p self)))
  = if Dict.mem (modules self) m
    then Dict.keys (modules self)
    else Dict.keys (modules self) ++ [m].
Proof.
  destruct (Dict.mem (modules self) m) eqn:Hm.
  - now rewrite add_module_duplicate.
  - assert (Hnew : forall node,
              Dict.keys (Dict.set (modules self) m node) = Dict.keys (modules self) ++ [m])
      by (intros node; now rewrite DictFacts.keys_set, Hm).
    destruct p as [q|].
    + destruct (Dict.get (Dict.set (modules self) m (new_node v (Some q))) q)
        as [pd|] eqn:Hq.
      * rewrite (add_module_parent_found _ _ _ _ _ Hm Hq). cbn [fst modules].
        rewrite DictFacts.keys_set_present by exact (DictFacts.mem_get_Some _ _ _ Hq).
        apply Hnew.
      * rewrite (add_module_parent_missing _ _ _ _ Hm Hq). cbn [fst modules].
        apply Hnew.
    + rewrite add_module_no_parent by assumption. cbn [fst modules]. apply Hnew.
Qed.

Lemma update_module_keys self (m : ModuleType) (v : ObjRef) p :
  Dict.keys (modules (fst (update_module m v p self))) = Dict.keys (modules self).
Proof.
  destruct (get_module self m) as [data|] eqn:Hget.
  - rewrite (update_module_present _ _ _ _ _ Hget). cbn [fst modules].
    apply DictFacts.keys_set_present. exact (DictFacts.mem_get_Some _ _ _ Hget).
  - now rewrite update_module_absent.
Qed.

Lemma add_module_dependency_keys self (p d : ModuleType) :
  Dict.keys (modules (fst (add_module_dependency p d self))) = Dict.keys (modules self).
Proof.
  destruct (get_module self p) as [data|] eqn:Hget.
  - rewrite (add_module_dependency_present _ _ _ _ Hget). cbn [fst modules].
    apply DictFacts.keys_set_present. exact (DictFacts.mem_get_Some _ _ _ Hget).
  - now rewrite add_module_dependency_absent.
Qed.

(** One call stores at most one new key, at the end. *)
Lemma step_keys self after :
  step self after ->
  exists extra,
    Dict.keys (modules after) = Dict.keys (modules self) ++ extra
    /\ List.length extra <= 1.
Proof.
  assert (Hadd : forall self (m : ModuleType) (v : ObjRef) p,
            exists extra,
              Dict.keys (modules (fst (add_module m v p self)))
              = Dict.keys (modules self) ++ extra
              /\ List.length extra <= 1).
  { intros s m v p. rewrite add_module_keys. destruct (Dict.mem (modules s) m).
    - exists []. rewrite app_nil_r. split; [reflexivity | simpl; lia].
    - exists [m]. split; [reflexivity | simpl; lia]. }
  intros [s m v p | s m v p | s m v p | s m provider export | s p d].
  - apply Hadd.
  - exists []. rewrite app_nil_r, update_module_keys. split; [reflexivity | simpl; lia].
  - destruct (add_or_update_state s m v p) as [-> | ->]; [apply Hadd|].
    rewrite update_module_keys. apply Hadd.
  - exists []. rewrite app_nil_r.
    rewrite (proj1 (add_provider_state s m provider export)).
    split; [reflexivity | simpl; lia].
  - exists []. rewrite app_nil_r, add_module_dependency_keys.
    split; [reflexivity | simpl; lia].
Qed.

(** X10.  No method removes or reorders modules: after any sequence of
    calls of [add_module], [update_module], [add_or_update], [add_provider]
    and [add_module_dependency], returning or raising, the keys the manager
    had are still its first keys, in the same order, so every module that
    was stored is still stored. *)
Theorem reaches_keeps_modules self after :
  reaches self after ->
  (exists extra, Dict.keys (modules after) = Dict.keys (modules self) ++ extra)
  /\ (forall k, Dict.mem (modules self) k = true -> Dict.mem (modules after) k = true).
Proof.
  intros Hreach.
  assert (Hprefix : exists extra,
             Dict.keys (modules after) = Dict.keys (modules self) ++ extra).
  { induction Hreach as [|mid after _ [extra1 IH] Hstep].
    - exists []. now rewrite app_nil_r.
    - destruct (step_keys mid after Hstep) as (extra2 & Hkeys & _).
      exists (extra1 ++ extra2). now rewrite Hkeys, IH, app_assoc. }
  split; [exact Hprefix|].
  destruct Hprefix as [extra Hkeys]. intros k Hk.
  destruct (DictFacts.mem_true_get _ _ Hk) as [node Hget].
  apply DictFacts.get_In_keys in Hget.
  destruct (DictFacts.In_keys_get (modules after) k) as [node' Hget'].
  - rewrite Hkeys. apply in_or_app. now left.
  - exact (DictFacts.mem_get_Some _ _ _ Hget').
Qed.

Lemma reaches_keeps_modules_witness :
  reaches manager_without_core example_tree
  /\ reaches example_tree (fst (add_or_update 1 5 (Some 9) example_tree))
  /\ Dict.mem (modules (fst (add_or_update 1 5 (Some 9) example_tree))) 3 = true.
Proof.
  assert (H0 : reaches manager_without_core example_tree).
  { unfold example_tree. repeat (eapply reaches_step; [|apply step_add_module]).
    apply reaches_refl. }
  assert (H1 : reaches example_tree (fst (add_or_update 1 5 (Some 9) example_tree))).
  { eapply reaches_step; [apply reaches_refl | apply step_add_or_update]. }
  split; [exact H0|]. split; [exact H1|].
  exact (proj2 (reaches_keeps_modules _ _ H1) 3 eq_refl).
Defined.

(** What one call of [add_module] does to the root and the core module. *)
Lemma add_module_root self (m : ModuleType) (v : ObjRef) p :
  _core_module (fst (add_module m v p self)) = _core_module self
  /\ (forall r, _root_module self = Some r ->
        _root_module (fst (add_module m v p self)) = Some r).
Proof.
  destruct (Dict.mem (modules self) m) eqn:Hm.
  - rewrite add_module_duplicate by assumption. now split.
  - destruct p as [q|].
    + destruct (Dict.get (Dict.set (modules self) m (new_node v (Some q))) q)
        as [pd|] eqn:Hq.
      * rewrite (add_module_parent_found _ _ _ _ _ Hm Hq).
        cbn [fst _core_module _root_module]. split; [reflexivity|].
        intros r ->. simpl. now rewrite andb_false_r.
      * rewrite (add_module_parent_missing _ _ _ _ Hm Hq). now split.
    + rewrite add_module_no_parent by assumption.
      cbn [fst _core_module _root_module]. split; [reflexivity|].
      intros r ->. reflexivity.
Qed.

Lemma update_module_root self (m : ModuleType) (v : ObjRef) p :
  _core_module (fst (update_module m v p self)) = _core_module self
  /\ _root_module (fst (update_module m v p self)) = _root_module self.
Proof.
  destruct (get_module self m) as [data|] eqn:Hget.
  - rewrite (update_module_present _ _ _ _ _ Hget). now split.
  - rewrite update_module_absent by assumption. now split.
Qed.

Lemma step_root self after :
  step self after ->
  _core_module after = _core_module self
  /\ (forall r, _root_module self = Some r -> _root_module after = Some r).
Proof.
  intros [s m v p | s m v p | s m v p | s m provider export | s p d].
  - apply add_module_root.
  - destruct (update_module_root s m v p) as [-> ->]. now split.
  - destruct (add_or_update_state s m v p) as [-> | ->]; [apply add_module_root|].
    destruct (update_module_root (fst (add_module m v p s)) m v p) as [-> ->].
    apply add_module_root.
  - destruct (add_provider_state s m provider export) as (_ & -> & ->). now split.
  - destruct (get_module s p) as [data|] eqn:Hget.
    + rewrite (add_module_dependency_present _ _ _ _ Hget). now split.
    + rewrite add_module_dependency_absent by assumption. now split.
Qed.

(** X11.  The root is written once and the core module never: after any
    sequence of calls the core module is the one the constructor set, and a
    root that was set is still the root, whatever modules were added or
    updated since. *)
Theorem reaches_keeps_root self after :
  reaches self after ->
  _core_module after = _core_module self
  /\ (forall r, _root_module self = Some r -> _root_module after = Some r).
Proof.
  induction 1 as [|mid after _ [IHcore IHroot] Hstep]; [now split|].
  destruct (step_root mid after Hstep) as [Hcore Hroot]. split.
  - now rewrite Hcore.
  - intros r Hr. apply Hroot, IHroot, Hr.
Qed.

Lemma reaches_keeps_root_witness :
  reaches example_tree (fst (add_module 5 5 None example_tree))
  /\ _root_module example_tree = Some 0
  /\ _root_module (fst (add_module 5 5 None example_tree)) = Some 0.
Proof.
  assert (H : reaches example_tree (fst (add_module 5 5 None example_tree))).
  { eapply reaches_step; [apply reaches_refl | apply step_add_module]. }
  split; [exact H|]. split; [reflexivity|].
  exact (proj2 (reaches_keeps_root _ _ H) 0 eq_refl).
Defined.

(** *** The root *)

Lemma root_module_set self r :
  _root_module self = Some r -> root_module self = (self, inr r).
Proof. intros H. unfold root_module, bind, get_self, ret. now rewrite H. Qed.

Lemma root_module_unset self :
  _root_module self = None ->
  root_module self = (self, inl (AssertionError "RootModule is not ready")).
Proof. intros H. unfold root_module, bind, get_self, raise. now rewrite H. Qed.

Lemma get_root_module_stored self r data :
  _root_module self = Some r -> get_module self r = Some data ->
  get_root_module self = (self, inr (value data)).
Proof.
  intros Hr Hget. unfold get_root_module, bind.
  rewrite (root_module_set _ _ Hr). unfold get_self, ret. now rewrite Hget.
Qed.

Lemma get_root_module_missing self r :
  _root_module self = Some r -> get_module self r = None ->
  get_root_module self = (self, inl (AssertionError "")).
Proof.
  intros Hr Hget. unfold get_root_module, bind.
  rewrite (root_module_set _ _ Hr). unfold get_self, raise. now rewrite Hget.
Qed.

(** X12.  In a manager without core module and without root, reading the
    root raises [AssertionError]; the first module added without parent
    becomes the root, and [get_root_module] then returns the value that was
    stored with it. *)
Theorem first_module_becomes_root self (m : ModuleType) (v : ObjRef) :
  _core_module self = None ->
  _root_module self = None ->
  Dict.mem (modules self) m = false ->
  snd (root_module self) = inl (AssertionError "RootModule is not ready")
  /\ snd (add_module m v None self) = inr tt
  /\ snd (root_module (fst (add_module m v None self))) = inr m
  /\ snd (get_root_module (fst (add_module m v None self))) = inr v.
Proof.
  intros Hcore Hroot Hm. rewrite (root_module_unset _ Hroot).
  rewrite add_module_no_parent by assumption. rewrite Hcore, Hroot.
  cbn [fst snd negb truthy andb].
  split; [reflexivity|]. split; [reflexivity|]. split.
  - now rewrite (root_module_set _ m).
  - rewrite (get_root_module_stored _ m (new_node v None)); [reflexivity|reflexivity|].
    unfold get_module. cbn [modules]. apply DictFacts.get_set_eq.
Qed.

Lemma first_module_becomes_root_witness :
  _core_module manager_without_core = None
  /\ _root_module manager_without_core = None
  /\ snd (root_module (fst (add_module 3 8 None manager_without_core))) = inr 3
  /\ snd (get_root_module (fst (add_module 3 8 None manager_without_core))) = inr 8.
Proof.
  destruct (first_module_becomes_root manager_without_core 3 8 eq_refl eq_refl eq_refl)
    as (_ & _ & Hroot & Hvalue).
  repeat split; assumption.
Defined.

(** X13.  In a manager with a core module and no root, a module added
    without parent does not become the root.  The first module added under
    the core module does, but the root that is recorded is the module named
    by the value, not the key the node is stored under:
    [get_root_module] returns the value when the two agree, and raises
    [AssertionError] when the value names a module that is not stored. *)
Theorem first_core_child_becomes_root self (m : ModuleType) (v : ObjRef)
    (c : ModuleType) :
  _core_module self = Some c ->
  _root_module self = None ->
  Dict.mem (modules self) c = true ->
  Dict.mem (modules self) m = false ->
  _root_module (fst (add_module m v None self)) = None
  /\ snd (add_module m v (Some c) self) = inr tt
  /\ snd (root_module (fst (add_module m v (Some c) self)))
     = inr (module (heap self v))
  /\ (module (heap self v) = m ->
      snd (get_root_module (fst (add_module m v (Some c) self))) = inr v)
  /\ (module (heap self v) <> m ->
      Dict.mem (modules self) (module (heap self v)) = false ->
      snd (get_root_module (fst (add_module m v (Some c) self)))
      = inl (AssertionError "")).
Proof.
  intros Hcore Hroot Hc Hm.
  assert (Hne : c <> m) by (intros ->; congruence).
  destruct (DictFacts.mem_true_get _ _ Hc) as [cdata Hget].
  assert (Hq : Dict.get (Dict.set (modules self) m (new_node v (Some c))) c = Some cdata)
    by (rewrite DictFacts.get_set_ne by congruence; exact Hget).
  split.
  { rewrite add_module_no_parent by assumption. cbn [fst _root_module].
    now rewrite Hcore, Hroot. }
  rewrite (add_module_parent_found _ _ _ _ _ Hm Hq). rewrite Hcore, Hroot.
  cbn [fst snd eqb_opt truthy negb]. rewrite Nat.eqb_refl. cbn [andb].
  match goal with |- _ /\ snd (root_module ?s) = _ /\ _ => set (after := s) end.
  assert (Hr : _root_module after = Some (module (heap self v))) by reflexivity.
  assert (Hafter_m : get_module after m = Some (new_node v (Some c))).
  { unfold get_module, after. cbn [modules].
    rewrite DictFacts.get_set_ne by congruence. apply DictFacts.get_set_eq. }
  split; [reflexivity|]. split; [now rewrite (root_module_set _ _ Hr)|]. split.
  - intros Heq. rewrite Heq in Hr.
    now rewrite (get_root_module_stored _ _ _ Hr Hafter_m).
  - intros Hdiff Habsent.
    rewrite (get_root_module_missing _ _ Hr); [reflexivity|].
    unfold get_module, after. cbn [modules].
    destruct (Nat.eq_dec (module (heap self v)) c) as [Heq|Hnc].
    + rewrite Heq in Habsent. congruence.
    + rewrite DictFacts.get_set_ne by congruence.
      rewrite DictFacts.get_set_ne by congruence.
      now apply DictFacts.mem_false_get.
Qed.

Lemma first_core_child_becomes_root_witness :
  _core_module manager_with_core = Some 0
  /\ _root_module manager_with_core = None
  /\ snd (root_module manager_with_core)
     = inl (AssertionError "RootModule is not ready")
  /\ snd (root_module (fst (add_module 1 1 (Some 0) manager_with_core))) = inr 1
  /\ snd (get_root_module (fst (add_module 1 1 (Some 0) manager_with_core))) = inr 1.
Proof.
  destruct (first_core_child_becomes_root manager_with_core 1 1 0
              eq_refl eq_refl eq_refl eq_refl) as (_ & _ & Hroot & Hvalue & _).
  split; [reflexivity|]. split; [reflexivity|]. split; [reflexivity|].
  split; [exact Hroot | exact (Hvalue eq_refl)].
Defined.

(** A value that names another module than the one it is stored under:
    the root is recorded as 42, which is not stored, and
    [get_root_module] fails. *)
Example get_root_module_of_renamed_value :
  let self := fst (__init__ renamed_heap (Some 0)) in
  let after := fst (add_module 1 1 (Some 0) self) in
  snd (root_module after) = inr 42
  /\ snd (get_root_module after) = inl (AssertionError "").
Proof. split; reflexivity. Qed.

(** *** More on [search_module_tree] *)

Lemma search_roots_sound self find_predicate visit nodes :
  (forall node, In node nodes -> sound_visit self find_predicate (visit (Some node))) ->
  sound_visit self find_predicate (search_roots visit (map Some nodes)).
Proof.
  induction nodes as [|node rest IH]; intros Hvisit.
  - exists []. split; [constructor | reflexivity].
  - simpl. pose proof (Hvisit node (or_introl eq_refl)) as Hnode.
    assert (Hrest : sound_visit self find_predicate (search_roots visit (map Some rest)))
      by (apply IH; intros x Hx; apply Hvisit; now right).
    destruct (visit (Some node)) as [seen [e|[found|]]]; try exact Hnode.
    destruct (search_roots visit (map Some rest)) as [seen' res].
    unfold sound_visit in *. cbn [fst snd] in *.
    destruct res as [e|found]; [exact I|].
    destruct Hnode as (rej1 & Hrej1 & ->). destruct Hrest as (rej2 & Hrej2 & Hshape).
    exists (rej1 ++ rej2). split; [now apply Forall_app|].
    destruct found as [d|].
    + destruct Hshape as (-> & Hin & Hholds). rewrite map_app, app_assoc. auto.
    + rewrite Hshape. now rewrite map_app.
Qed.

Lemma dfs_sound self find_predicate limit node :
  In node (Dict.values (modules self)) ->
  sound_visit self find_predicate (dfs self find_predicate limit (Some node)).
Proof.
  revert node. induction limit as [|limit IH]; intros node Hstored; [exact I|].
  simpl. destruct (holds find_predicate node) eqn:Hholds.
  - exists []. split; [constructor|]. simpl. auto.
  - rewrite dfs_children_search_roots.
    assert (Hbelow : sound_visit self find_predicate
                       (search_roots (dfs self find_predicate limit)
                          (map Some (children_of self (dependencies node))))).
    { apply search_roots_sound. intros child Hchild. apply IH.
      destruct (children_of_stored _ _ _ Hchild) as (id & _ & Hget).
      exact (DictFacts.get_In _ _ _ Hget). }
    destruct (search_roots (dfs self find_predicate limit)
                (map Some (children_of self (dependencies node)))) as [seen res].
    unfold sound_visit in *. cbn [fst snd] in *.
    destruct res as [e|found]; [exact I|].
    destruct Hbelow as (rejected & Hrej & Hshape).
    exists (node :: rejected). split; [constructor; auto|].
    destruct found as [d|].
    + destruct Hshape as (-> & Hin & Hd). simpl. auto.
    + rewrite Hshape. reflexivity.
Qed.

(** X14.  Whatever the shape of the stored graph, cycles included, a node
    that [search_module_tree] returns is a stored node that satisfies
    [find_predicate], and it is the first such node the search came
    across: every earlier call of [find_predicate] was on a stored node
    and was answered with false. *)
Theorem search_module_tree_returns_first_hit self limit filter_item find_predicate
    found :
  snd (search_module_tree self limit filter_item find_predicate) = inr (Some found) ->
  In found (Dict.values (modules self))
  /\ holds find_predicate found = true
  /\ exists rejected,
       fst (search_module_tree self limit filter_item find_predicate)
       = map Some rejected ++ [Some found]
       /\ Forall (fun node => In node (Dict.values (modules self))
                              /\ holds find_predicate node = false) rejected.
Proof.
  unfold search_module_tree. rewrite find_module_matching.
  destruct (matching self filter_item) as [|root rest] eqn:Hroots.
  - cbn [search_roots]. destruct limit as [|limit]; [discriminate|].
    rewrite dfs_None. unfold visit_None.
    destruct (on_None find_predicate) as [e|[|]]; discriminate.
  - intros Hfound.
    assert (Hsound : sound_visit self find_predicate
                       (search_roots (dfs self find_predicate limit)
                          (map Some (root :: rest)))).
    { apply search_roots_sound. intros node Hnode. apply dfs_sound.
      rewrite <- Hroots in Hnode. unfold matching in Hnode.
      now apply filter_In in Hnode. }
    unfold sound_visit in Hsound. rewrite Hfound in Hsound.
    destruct Hsound as (rejected & Hrej & Hfst & Hin & Hholds).
    split; [exact Hin|]. split; [exact Hholds|]. now exists rejected.
Qed.

Lemma search_module_tree_returns_first_hit_witness :
  snd (search_module_tree example_tree 1000 has_no_parent is_module_C)
  = inr (Some node_C)
  /\ In node_C (Dict.values (modules example_tree))
  /\ holds is_module_C node_C = true.
Proof.
  assert (H : snd (search_module_tree example_tree 1000 has_no_parent is_module_C)
              = inr (Some node_C)) by reflexivity.
  destruct (search_module_tree_returns_first_hit example_tree 1000 has_no_parent
              is_module_C node_C H) as (Hin & Hholds & _).
  repeat split; assumption.
Defined.

(** A loop that completed completes in the same way when each of its
    calls has more room. *)
Lemma search_roots_more_room (visit visit' : option TreeData -> Visit) found seen res :
  (forall arg seen res, visit arg = (seen, inr res) -> visit' arg = (seen, inr res)) ->
  search_roots visit found = (seen, inr res) ->
  search_roots visit' found = (seen, inr res).
Proof.
  intros Hvisit. revert seen res.
  induction found as [|arg rest IH]; intros seen res; simpl; [trivial|].
  destruct (visit arg) as [seen1 [e|[d|]]] eqn:Harg.
  - discriminate.
  - intros [= <- <-]. now rewrite (Hvisit _ _ _ Harg).
  - rewrite (Hvisit _ _ _ Harg).
    destruct (search_roots visit rest) as [seen2 [e|res2]]; [discriminate|].
    intros [= <- <-]. now rewrite (IH _ _ eq_refl).
Qed.

Lemma dfs_one_more_level self find_predicate limit :
  forall arg seen res,
    dfs self find_predicate limit arg = (seen, inr res) ->
    dfs self find_predicate (S limit) arg = (seen, inr res).
Proof.
  induction limit as [|limit IH]; intros arg seen res; [discriminate|].
  intros H. simpl in H. change (dfs self find_predicate (S (S limit)) arg)
    with (match apply find_predicate arg with
          | inl e => ([arg], inl e)
          | inr true => ([arg], inr arg)
          | inr false =>
              match arg with
              | None => ([arg], inl (AttributeError "dependencies"))
              | Some node =>
                  let (seen, res) :=
                    dfs_children self (dfs self find_predicate (S limit))
                      (dependencies node) in
                  (arg :: seen, res)
              end
          end).
  destruct (apply find_predicate arg) as [e|[|]]; try exact H.
  destruct arg as [node|]; [|exact H].
  rewrite dfs_children_search_roots in *.
  destruct (search_roots (dfs self find_predicate limit)
              (map Some (children_of self (dependencies node))))
    as [seen1 [e|res1]] eqn:Hloop; [discriminate|].
  rewrite (search_roots_more_room _ _ _ _ _ IH Hloop). exact H.
Qed.

Lemma dfs_more_room self find_predicate limit limit' :
  limit <= limit' ->
  forall arg seen res,
    dfs self find_predicate limit arg = (seen, inr res) ->
    dfs self find_predicate limit' arg = (seen, inr res).
Proof.
  induction 1 as [|limit' _ IH]; intros arg seen res H; [exact H|].
  apply dfs_one_more_level. now apply IH.
Qed.

(** X15.  A search that returned, a node or [None], with room for some
    depth of nested calls of [dfs] returns the same, after the same calls
    of [find_predicate], with room for any greater depth: how much room
    there is decides only whether the search raises [RecursionError]. *)
Theorem search_module_tree_more_room self limit limit' filter_item find_predicate
    seen res :
  limit <= limit' ->
  search_module_tree self limit filter_item find_predicate = (seen, inr res) ->
  search_module_tree self limit' filter_item find_predicate = (seen, inr res).
Proof.
  intros Hle. unfold search_module_tree.
  apply search_roots_more_room. now apply dfs_more_room.
Qed.

Lemma search_module_tree_more_room_witness :
  1000 <= 2000
  /\ search_module_tree example_tree 1000 has_no_parent is_module_C
     = ([Some node_root; Some node_A; Some node_C], inr (Some node_C))
  /\ search_module_tree example_tree 2000 has_no_parent is_module_C
     = ([Some node_root; Some node_A; Some node_C], inr (Some node_C)).
Proof.
  assert (Hle : 1000 <= 2000) by (apply Nat.leb_le; reflexivity).
  assert (H : search_module_tree example_tree 1000 has_no_parent is_module_C
              = ([Some node_root; Some node_A; Some node_C], inr (Some node_C)))
    by reflexivity.
  split; [exact Hle|]. split; [exact H|].
  exact (search_module_tree_more_room example_tree 1000 2000 has_no_parent is_module_C
           _ _ Hle H).
Defined.

(** X16.  A module that lists itself as its only dependency, as
    [add_module] leaves it when a module is given itself as parent, makes
    every search that starts at it and does not stop at it exhaust the
    stack, whatever room there is. *)
Theorem search_module_tree_self_loop self limit filter_item find_predicate
    (k : ModuleType) node rest :
  matching self filter_item = node :: rest ->
  get_module self k = Some node ->
  dependencies node = [k] ->
  holds find_predicate node = false ->
  snd (search_module_tree self limit filter_item find_predicate) = inl RecursionError.
Proof.
  intros Hroots Hget Hdeps Hfalse.
  unfold search_module_tree. rewrite find_module_matching, Hroots. simpl.
  pose proof (dfs_self_loop_exhausts self find_predicate node k limit Hget Hdeps Hfalse)
    as Hdfs.
  destruct (dfs self find_predicate limit (Some node)) as [seen res].
  simpl in Hdfs. now subst res.
Qed.

Lemma search_module_tree_self_loop_witness :
  get_module self_loop_tree 7
  = Some {| value := 7; parent := Some 7; dependencies := [7] |}
  /\ snd (search_module_tree self_loop_tree 1000
            (node_predicate (fun _ => true) "name")
            (node_predicate (fun _ => false) "name"))
     = inl RecursionError.
Proof.
  split; [reflexivity|].
  exact (search_module_tree_self_loop self_loop_tree 1000
           (node_predicate (fun _ => true) "name")
           (node_predicate (fun _ => false) "name")
           7 {| value := 7; parent := Some 7; dependencies := [7] |} []
           eq_refl eq_refl eq_refl eq_refl).
Defined.

(** *** [get_by_ref_type] *)

(** X17.  [find_module] with the predicate [data.ref_type == ref_type] and
    [get_by_ref_type] find the same nodes in the same order; they differ
    when there is none, where [get_by_ref_type] returns the empty list and
    [find_module] yields the marker [None]. *)
Theorem find_module_by_ref_type self (ref_type : string) :
  find_module self (ref_type_is (heap self) ref_type)
  = match get_by_ref_type self ref_type with
    | [] => [None]
    | found => map Some found
    end
  /\ forall data,
       In data (get_by_ref_type self ref_type)
       <-> In data (Dict.values (modules self))
           /\ TreeData_ref_type (heap self) data = ref_type.
Proof.
  split; [apply find_module_matching|].
  intros data. unfold get_by_ref_type. rewrite filter_In.
  now rewrite String.eqb_eq.
Qed.

(** *** One parent per module *)

Lemma all_dependencies_app d1 d2 :
  all_dependencies (d1 ++ d2) = all_dependencies d1 ++ all_dependencies d2.
Proof. unfold all_dependencies. apply flat_map_app. Qed.

Lemma all_dependencies_set_same d k data node :
  Dict.get d k = Some data ->
  dependencies node = dependencies data ->
  all_dependencies (Dict.set d k node) = all_dependencies d.
Proof.
  intros Hget Hdeps. induction d as [|[k' n] rest IH]; simpl in *; [discriminate|].
  destruct (Nat.eqb k' k); simpl.
  - injection Hget as <-. now rewrite Hdeps.
  - now rewrite IH.
Qed.

(** Listing [m] as one more dependency of a stored module adds [m] once. *)
Lemma all_dependencies_add_child d p pdata m :
  Dict.get d p = Some pdata ->
  Permutation (all_dependencies (Dict.set d p (append_dependency pdata m)))
    (m :: all_dependencies d).
Proof.
  intros Hget. induction d as [|[k' n] rest IH]; simpl in *; [discriminate|].
  destruct (Nat.eqb k' p); simpl.
  - injection Hget as <-. rewrite <- app_assoc. simpl.
    symmetry. apply Permutation_middle.
  - etransitivity; [apply Permutation_app_head, IH, Hget|].
    symmetry. apply Permutation_middle.
Qed.

Lemma get_all_dependencies d k node id :
  Dict.get d k = Some node -> In id (dependencies node) -> In id (all_dependencies d).
Proof.
  induction d as [|[k' n] rest IH]; simpl; [discriminate|].
  destruct (Nat.eqb k' k).
  - intros [= <-] Hid. apply in_or_app. now left.
  - intros Hget Hid. apply in_or_app. right. now apply IH.
Qed.

Lemma forward_all_dependencies_stored d id :
  forward d -> In id (all_dependencies d) -> In id (Dict.keys d).
Proof.
  induction d as [|[k n] rest IH]; simpl; [intros _ []|].
  intros [Hhead Hrest] Hid. right. apply in_app_or in Hid.
  destruct Hid as [Hid|Hid]; [now apply Hhead | now apply IH].
Qed.

Lemma add_module_single_parent self (m : ModuleType) (v : ObjRef) p :
  acyclic self -> p <> Some m ->
  NoDup (all_dependencies (modules self)) ->
  NoDup (all_dependencies (modules (fst (add_module m v p self)))).
Proof.
  intros [Hnd Hfw] Hne Hdeps.
  destruct (Dict.mem (modules self) m) eqn:Hm.
  - now rewrite add_module_duplicate.
  - pose proof (DictFacts.mem_false_get _ _ Hm) as Hnone.
    assert (Hleaf : forall q, all_dependencies (Dict.set (modules self) m (new_node v q))
                              = all_dependencies (modules self)).
    { intros q. rewrite (DictFacts.set_absent _ _ _ Hnone), all_dependencies_app.
      simpl. now rewrite app_nil_r. }
    destruct p as [q|].
    + destruct (Dict.get (Dict.set (modules self) m (new_node v (Some q))) q)
        as [pd|] eqn:Hq.
      * rewrite (add_module_parent_found _ _ _ _ _ Hm Hq). cbn [fst modules].
        apply (Permutation_NoDup
                 (Permutation_sym (all_dependencies_add_child _ _ _ m Hq))).
        rewrite Hleaf. constructor; [|exact Hdeps].
        intros Hin. apply (forward_all_dependencies_stored _ _ Hfw) in Hin.
        exact (DictFacts.get_None_not_In_keys _ _ Hnone Hin).
      * rewrite (add_module_parent_missing _ _ _ _ Hm Hq). cbn [fst modules].
        now rewrite Hleaf.
    + rewrite add_module_no_parent by assumption. cbn [fst modules].
      now rewrite Hleaf.
Qed.

Lemma update_module_single_parent self (m : ModuleType) (v : ObjRef) p :
  NoDup (all_dependencies (modules self)) ->
  NoDup (all_dependencies (modules (fst (update_module m v p self)))).
Proof.
  intros Hdeps. destruct (get_module self m) as [data|] eqn:Hget.
  - rewrite (update_module_present _ _ _ _ _ Hget). cbn [fst modules].
    now rewrite (all_dependencies_set_same _ _ data).
  - now rewrite update_module_absent.
Qed.

(** In a built tree no module is listed twice, in one dependency list or in
    two. *)
Lemma built_single_parent self :
  built self -> NoDup (all_dependencies (modules self)).
Proof.
  induction 1 as [h core | self m v p Hbuilt IH Hne | self m v p _ IH
                  | self m v p Hbuilt IH Hne | self m provider export _ IH].
  - destruct core as [r|]; unfold __init__.
    + apply add_module_single_parent; [|discriminate|constructor].
      split; [constructor | exact I].
    + constructor.
  - apply add_module_single_parent; [now apply built_acyclic | exact Hne | exact IH].
  - now apply update_module_single_parent.
  - destruct (add_or_update_state self m v p) as [-> | ->].
    + apply add_module_single_parent; [now apply built_acyclic | exact Hne | exact IH].
    + apply update_module_single_parent, add_module_single_parent;
        [now apply built_acyclic | exact Hne | exact IH].
  - now rewrite (proj1 (add_provider_state self m provider export)).
Qed.

Lemma NoDup_app_disjoint {A} (l1 l2 : list A) x :
  NoDup (l1 ++ l2) -> In x l1 -> In x l2 -> False.
Proof.
  induction l1 as [|y l1 IH]; simpl; [intros _ []|].
  intros Hnd [->|Hin] Hin2.
  - inversion Hnd as [|? ? Hnotin _]; subst. apply Hnotin, in_or_app. now right.
  - inversion Hnd; subst. now apply IH.
Qed.

Lemma single_owner d k1 k2 n1 n2 id :
  NoDup (all_dependencies d) ->
  Dict.get d k1 = Some n1 -> Dict.get d k2 = Some n2 ->
  In id (dependencies n1) -> In id (dependencies n2) ->
  k1 = k2.
Proof.
  induction d as [|[k n] rest IH]; simpl; [discriminate|].
  intros Hnd Hget1 Hget2 Hid1 Hid2.
  destruct (Nat.eqb k k1) eqn:E1, (Nat.eqb k k2) eqn:E2.
  - apply Nat.eqb_eq in E1, E2. congruence.
  - injection Hget1 as <-. exfalso.
    exact (NoDup_app_disjoint _ _ id Hnd Hid1 (get_all_dependencies _ _ _ _ Hget2 Hid2)).
  - injection Hget2 as <-. exfalso.
    exact (NoDup_app_disjoint _ _ id Hnd Hid2 (get_all_dependencies _ _ _ _ Hget1 Hid1)).
  - apply (IH (NoDup_app_remove_l _ _ Hnd) Hget1 Hget2 Hid1 Hid2).
Qed.

Lemma NoDup_dependencies d k node :
  NoDup (all_dependencies d) -> Dict.get d k = Some node -> NoDup (dependencies node).
Proof.
  induction d as [|[k' n] rest IH]; simpl; [discriminate|].
  intros Hnd. destruct (Nat.eqb k' k).
  - intros [= <-]. exact (NoDup_app_remove_r _ _ Hnd).
  - apply IH. exact (NoDup_app_remove_l _ _ Hnd).
Qed.

(** X18.  A tree built through the constructor, [add_module],
    [update_module], [add_or_update] and [add_provider], with no module
    given itself as parent, is single-parent: a module that is listed as a
    dependency is listed by one module only, and only once. *)
Theorem built_tree_single_parent self (k1 k2 id : ModuleType) n1 n2 :
  built self ->
  get_module self k1 = Some n1 ->
  get_module self k2 = Some n2 ->
  In id (dependencies n1) ->
  In id (dependencies n2) ->
  k1 = k2 /\ NoDup (dependencies n1).
Proof.
  intros Hbuilt Hget1 Hget2 Hid1 Hid2.
  pose proof (built_single_parent self Hbuilt) as Hnd. split.
  - exact (single_owner _ _ _ _ _ _ Hnd Hget1 Hget2 Hid1 Hid2).
  - exact (NoDup_dependencies _ _ _ Hnd Hget1).
Qed.

Lemma built_tree_single_parent_witness :
  built example_tree
  /\ get_module example_tree 0 = Some node_root
  /\ In 1 (dependencies node_root)
  /\ NoDup (dependencies node_root).
Proof.
  split; [exact example_tree_built|]. split; [reflexivity|].
  split; [now left|].
  exact (proj2 (built_tree_single_parent example_tree 0 0 1 node_root node_root
                  example_tree_built eq_refl eq_refl
                  (or_introl eq_refl) (or_introl eq_refl))).
Defined.

End TreeManagerFacts.

(** ** The execution-context factory *)

Module ContextFactoryFacts.
Import ContextFactory.
Section FactoryFacts.
Context {TScope TReceive TSend Endpoint Reflector Boundary : Type}.
Variable empty_receive : TReceive.
Variable empty_send : TSend.

(** C7.  When the slot of the current concurrency unit holds no boundary,
    [create_context] raises [ServiceUnavailable].  When it holds one,
    whichever it is, the call returns the execution context built from the
    given scope, the given [receive] and [send] (the empty ones where none
    is given), the endpoint of the given operation and the factory's
    reflector. *)
Theorem create_context_cases (self : @ExecutionContextFactory Reflector)
    (operation : @RouteOperationBase Endpoint)
    (scope0 : TScope) (receive0 : option TReceive) (send0 : option TSend) :
  create_context empty_receive empty_send (@None Boundary) self operation
    scope0 receive0 send0
  = inl ServiceUnavailable
  /\ forall boundary : Boundary,
       create_context empty_receive empty_send (Some boundary) self operation
         scope0 receive0 send0
       = inr {| scope := scope0;
                receive := match receive0 with Some r => r | None => empty_receive end;
                send := match send0 with Some s => s | None => empty_send end;
                operation_handler := endpoint operation;
                context_reflector := reflector self |}.
Proof.
  split; [reflexivity|]. intros boundary. unfold create_context, ContextVar_get.
  destruct receive0, send0; reflexivity.
Qed.

End FactoryFacts.

(** With numbers for the opaque objects: no boundary published; boundary 7
    published, with a [receive] of the caller's and the default [send]. *)
Lemma create_context_cases_witness :
  create_context 0 0 (@None nat) {| reflector := 1 |} {| endpoint := 2 |}
    3 (Some 4) None
  = inl ServiceUnavailable
  /\ create_context 0 0 (Some 7) {| reflector := 1 |} {| endpoint := 2 |}
       3 (Some 4) None
     = inr {| scope := 3; receive := 4; send := 0; operation_handler := 2;
              context_reflector := 1 |}.
Proof.
  destruct (create_context_cases (Boundary := nat) 0 0 {| reflector := 1 |}
              {| endpoint := 2 |} 3 (Some 4) None) as [Hnone Hsome].
  split; [exact Hnone | exact (Hsome 7)].
Defined.

(** With numbers for the opaque objects: no boundary published, and
    boundary 7 published with the default channels. *)
Example create_context_example :
  create_context 0 0 (None : option nat) {| reflector := 1 |} {| endpoint := 2 |}
    3 None None
  = inl ServiceUnavailable
  /\ create_context 0 0 (Some 7) {| reflector := 1 |} {| endpoint := 2 |}
       3 (Some 4) None
     = inr {| scope := 3; receive := 4; send := 0; operation_handler := 2;
              context_reflector := 1 |}.
Proof. split; reflexivity. Qed.

End ContextFactoryFacts.
